(** * atecc608: command/response protocol of the ATECC608 secure element

    A shallow embedding of [atecc608.go] (package [atecc608] of armoryctl)
    and the properties of its checksum, packet codec, power-state
    controller, command executor and command library.

    Conventions of the embedding:
    - a Go [byte] is a [Byte.byte]; where the source computes with it, it
      is read as an integer in [0, 256) through [b2z];
    - a Go [uint16] or [uint8] variable is a [Z] whose wrap-around is
      written out ([mod 65536], [mod 256]);
    - a Go [[]byte] is a [list byte], a Go [string] is a [string];
    - a Go [error] is an [option error] ([None] is [nil]);
    - the bus transport ([armoryctl.I2CWrite], [armoryctl.I2CRead]) is not
      part of the package: it is an arbitrary function of the history of
      bus calls, and every function that touches the bus threads that
      history explicitly;
    - [log.Printf] lines are diagnostic output and are left out. *)

From Stdlib Require Import ZArith List Bool Lia Permutation.
From Stdlib.Strings Require Import String Ascii Byte.
Import ListNotations.
Local Open Scope Z_scope.

(** Go's builtin [len] on slices. *)
Abbreviation len l := (Datatypes.length l) (only parsing).

(** ** Bytes *)

Definition b2z (b : byte) : Z := Z.of_N (Byte.to_N b).

(** Go's [byte(x)] conversion of an integer: truncation to 8 bits. *)
Definition z2b (z : Z) : byte :=
  match Byte.of_N (Z.to_N (z mod 256)) with
  | Some b => b
  | None => x00
  end.

(** [bytes.Equal]. *)
Fixpoint bytes_Equal (a b : list byte) : bool :=
  match a, b with
  | [], [] => true
  | x :: a', y :: b' => Byte.eqb x y && bytes_Equal a' b'
  | _, _ => false
  end.

(** ** Constants *)

Definition I2CBus : Z := 0.
Definition I2CAddress : Z := 0x60.

Definition CmdAddress : Z := 0x03.
Definition CRC16Poly : Z := 0x8005.
Definition CmdMaxExecutionTime : Z := 200 + 50.
Definition CmdMinLen : Z := 7.
Definition ResponseMinLen : Z := 4.

(** ** Checksum *)

Module Crc.

(** One pass of the body of the inner loop of [crc16]: [shift] is the
    current one-bit mask, [crc] the 16-bit register. *)
Definition bit_step (shift : Z) (d_byte : byte) (crc : Z) : Z :=
  let d := if negb (Z.land (b2z d_byte) shift =? 0) then 1 else 0 in
  let c := (Z.shiftr crc 15) mod 256 in
  let crc := (Z.shiftl crc 1) mod 65536 in
  if negb (d =? c) then Z.lxor crc CRC16Poly else crc.

(** [for shift := uint8(0x01); shift > 0x00; shift <<= 1 { ... }].
    The loop ends when the [uint8] mask overflows to zero; [fuel] bounds
    the number of passes and [None] means it was too small. *)
Fixpoint shift_loop (fuel : nat) (shift : Z) (d_byte : byte) (crc : Z)
  : option Z :=
  if 0 <? shift then
    match fuel with
    | O => None
    | S fuel' =>
        shift_loop fuel' ((Z.shiftl shift 1) mod 256) d_byte
          (bit_step shift d_byte crc)
    end
  else Some crc.

(** The register after the inner loop has consumed one byte. Eight passes
    always suffice ([CrcFacts.shift_loop_terminates]), so the [None] branch is never
    taken. *)
Definition byte_step (crc : Z) (d_byte : byte) : Z :=
  match shift_loop 8 1 d_byte crc with
  | Some crc' => crc'
  | None => crc
  end.

(** The value of [crc] when the outer loop is left. *)
Definition register (data : list byte) : Z := fold_left byte_step data 0.

End Crc.

(** [func crc16(data []byte) []byte]. *)
Definition crc16 (data : list byte) : list byte :=
  let crc := Crc.register data in
  [z2b (Z.land crc 0xff); z2b (Z.shiftr crc 8)].

(** *** The checksum as the specification words it

    A 16-bit register initialised to zero; for each input byte, for each
    bit from least significant to most significant: [data_bit] is the
    current input bit, [carry_bit] is bit 15 of the register, the register
    is shifted left by one and, if the two bits differ, XOR-ed with
    0x8005. The register is output low byte first. *)
Module CrcRef.

Definition step_bit (b : byte) (reg : Z) (i : nat) : Z :=
  let data_bit := Z.testbit (b2z b) (Z.of_nat i) in
  let carry_bit := Z.testbit reg 15 in
  let reg' := (2 * reg) mod 2 ^ 16 in
  if Bool.eqb data_bit carry_bit then reg' else Z.lxor reg' 0x8005.

Definition step_byte (reg : Z) (b : byte) : Z :=
  fold_left (step_bit b) (seq 0 8) reg.

Definition register (data : list byte) : Z := fold_left step_byte data 0.

Definition checksum (data : list byte) : list byte :=
  let reg := register data in
  [z2b (reg mod 256); z2b (reg / 256)].

End CrcRef.

(** ** Errors

    The source builds its errors with [fmt.Errorf]; each constructor stands
    for one of those messages. [TransportError] is an error value produced
    by the bus transport, which the package only ever passes on. *)
Inductive error : Type :=
| TransportError (msg : string)
| MalformedFrame                 (* "invalid response, got less than 4 bytes" *)
| ChecksumMismatch               (* "checksum verification failure" *)
| UnknownStatus (status : byte)  (* "invalid status/error code: %x" *)
| DeviceError (reason : string)  (* "%s" of the status table entry *)
| WakeFailed                     (* "wake-up failed" *)
| DecodeError (msg : string).    (* an error of [hex.DecodeString] *)

(** ** Tables *)

(** [var Cmd = map[string]byte{...}], read at the three keys in use. *)
Definition Cmd (name : string) : byte :=
  if String.eqb name "Read" then x02
  else if String.eqb name "SelfTest" then x77
  else if String.eqb name "SHA256" then x47
  else x00.

(** [var ShaMode = map[string]byte{...}]. *)
Definition ShaMode (name : string) : byte :=
  if String.eqb name "SHA_MODE_SHA256_START" then x00
  else if String.eqb name "SHA_MODE_SHA256_UPDATE" then x01
  else if String.eqb name "SHA_MODE_SHA256_END" then x02
  else if String.eqb name "SHA_MODE_SHA256_PUBLIC" then x03
  else if String.eqb name "SHA_MODE_HMAC_START" then x04
  else if String.eqb name "SHA_MODE_HMAC_UPDATE" then x01
  else if String.eqb name "SHA_MODE_HMAC_END" then x05
  else if String.eqb name "SHA_MODE_READ_CONTEXT" then x06
  else if String.eqb name "SHA_MODE_WRITE_CONTEXT" then x07
  else if String.eqb name "SHA_MODE_TARGET_MASK" then xc0
  else if String.eqb name "SHA_MODE_TARGET_TEMPKEY" then x00
  else if String.eqb name "SHA_MODE_TARGET_MSGDIGBUF" then x40
  else if String.eqb name "SHA_MODE_TARGET_OUT_ONLY" then xc0
  else x00.

(** [var Status = map[byte]string{...}]; a key that is not in a Go map
    reads as the zero value, the empty string. *)
Definition Status (code : byte) : string :=
  match code with
  | x00 => "successful command execution"
  | x01 => "checkmac or verify miscompare"
  | x03 => "parse error"
  | x05 => "ECC fault"
  | x07 => "self test error"
  | x08 => "health test error"
  | x0f => "execution error"
  | x11 => "after wake, prior to first command"
  | xee => "watchdog about to expire"
  | xff => "CRC or other communications error"
  | _ => ""
  end.

(** [var Test = map[string]byte{...}]: the entries of the map. Go ranges
    over a map in an unspecified order; the order of this list is the one
    of the source text and carries no meaning. *)
Definition Test : list (string * byte) :=
  [ ("SHA", x20); ("AES", x10); ("ECDH", x08);
    ("ECDSA Sign", x04); ("ECDSA Verify", x02); ("RNG DRBG", x01) ]%string.

(** ** Packet codec *)

(** [func verifyResponse(res []byte) (data []byte, err error)]. Both named
    results are returned on every path: [data] is still [nil] when the
    length check fails and is already the inner slice when the checksum or
    the status check fails. The indexings [res[0]] and [data[0]] are in
    range because [len(res) >= 4] at that point. *)
Definition verifyResponse (res : list byte) : list byte * option error :=
  if Z.of_nat (len res) <? ResponseMinLen then ([], Some MalformedFrame)
  else
    let size := (len res - 2)%nat in
    let count := nth 0 res x00 in
    let payload := firstn size res in
    let data := skipn 1 (firstn size res) in
    let crc := skipn size res in
    if negb (bytes_Equal (crc16 payload) crc) then (data, Some ChecksumMismatch)
    else if negb (b2z count =? 4) then (data, None)
    else
      let status := nth 0 data x00 in
      if String.eqb (Status status) "" then (data, Some (UnknownStatus status))
      else if negb (b2z status =? 0x00)
              && ((b2z status <=? 0x0f) || (b2z status =? 0xff))
      then (data, Some (DeviceError (Status status)))
      else (data, None).

(** Lines 234-243 of [ExecuteCmd]: the command packet
    [count | opcode | param1 | param2 | data | crc16]. *)
Definition command_frame (opcode : byte) (param1 : byte) (param2 : byte * byte)
    (data : list byte) : list byte :=
  let cmd := [] in
  let count := [z2b (CmdMinLen + Z.of_nat (len data))] in
  let op := [opcode] in
  let cmd := cmd ++ count in
  let cmd := cmd ++ op in
  let cmd := cmd ++ [param1] in
  let cmd := cmd ++ [fst param2; snd param2] in
  let cmd := cmd ++ data in
  cmd ++ crc16 cmd.

(** *** The vocabulary of the specification for responses *)

(** The two checks every response has to pass first. *)
Definition passes_checks (res : list byte) : Prop :=
  (4 <= len res)%nat /\
  crc16 (firstn (len res - 2) res) = skipn (len res - 2) res.

(** The bytes between the count byte and the trailing checksum. *)
Definition response_data (res : list byte) : list byte :=
  skipn 1 (firstn (len res - 2) res).

(** The Status Code enumeration of the data model. *)
Inductive status_code : Type :=
| Success | ChecksumOrVerifyMiscompare | ParseError | ECCFault
| SelfTestError | HealthTestError | ExecutionError
| AfterWakeBeforeFirstCommand | WatchdogExpiringSoon | CommunicationError
| Unknown.

Definition status_of_byte (b : byte) : status_code :=
  match b with
  | x00 => Success
  | x01 => ChecksumOrVerifyMiscompare
  | x03 => ParseError
  | x05 => ECCFault
  | x07 => SelfTestError
  | x08 => HealthTestError
  | x0f => ExecutionError
  | x11 => AfterWakeBeforeFirstCommand
  | xee => WatchdogExpiringSoon
  | xff => CommunicationError
  | _ => Unknown
  end.

(** What interpreting a byte as a Status Code yields: an unknown code is
    [UnknownStatus]; Success and the informational codes are no error; the
    remaining known codes are a [DeviceError] carrying their meaning. *)
Definition status_error (b : byte) : option error :=
  match status_of_byte b with
  | Unknown => Some (UnknownStatus b)
  | Success | AfterWakeBeforeFirstCommand | WatchdogExpiringSoon => None
  | _ => Some (DeviceError (Status b))
  end.

(** ** The bus transport

    [armoryctl.I2CWrite(bus, addr, reg, data) error] and
    [armoryctl.I2CRead(bus, addr, reg, size) ([]byte, error)] belong to
    another package. Every call the package makes is appended to a trace;
    what the transport answers is an arbitrary function of the trace up to
    and including that call, so a [transport] stands for any deterministic
    device and driver behind the bus. [time.Sleep] is recorded in the same
    trace. *)
Inductive call : Type :=
| I2CWrite_call (bus addr reg : Z) (data : list byte)
| I2CRead_call (bus addr reg : Z) (size : Z)
| Delay_call (ms : Z).

Definition trace : Type := list call.

Record transport : Type := {
  write_result : trace -> option error;
  read_result : trace -> list byte * option error
}.

(** A Go function either returns or panics (index or slice out of range). *)
Inductive outcome (A : Type) : Type :=
| Returns (a : A)
| Panics.
Arguments Returns {A} a.
Arguments Panics {A}.

(** Code that talks to the bus: from the trace so far to an outcome and
    the extended trace. *)
Definition M (A : Type) : Type := trace -> outcome A * trace.

Definition ret {A} (a : A) : M A := fun t => (Returns a, t).

Definition bind {A B} (m : M A) (k : A -> M B) : M B :=
  fun t =>
    match m t with
    | (Returns a, t1) => k a t1
    | (Panics, t1) => (Panics, t1)
    end.

Definition panic {A} : M A := fun t => (Panics, t).

(** [defer d]: [d] runs when the body is left, whether it returned or
    panicked; the outcome of the body stands. *)
Definition defer {A} (d : M unit) (body : M A) : M A :=
  fun t =>
    let (o, t1) := body t in
    (o, snd (d t1)).

Declare Scope go_scope.
Delimit Scope go_scope with go.
Notation "x <- m ;; k" := (bind m (fun x => k))
  (at level 61, m at next level, right associativity) : go_scope.
Notation "' p <- m ;; k" := (bind m (fun x => let p := x in k))
  (at level 61, p pattern, m at next level, right associativity) : go_scope.
Notation "m ;;; k" := (bind m (fun _ => k))
  (at level 61, right associativity) : go_scope.

(** Go's [s[lo:hi]] on a slice whose capacity is its length. *)
Definition slice (s : list byte) (lo hi : nat) : M (list byte) :=
  if (lo <=? hi)%nat && (hi <=? len s)%nat
  then ret (firstn (hi - lo) (skipn lo s))
  else panic.

(** ** Go's standard library: [encoding/hex] and the [%x] verb *)

Definition fromHexChar (c : byte) : option Z :=
  let n := b2z c in
  if (48 <=? n) && (n <=? 57) then Some (n - 48)            (* '0'..'9' *)
  else if (97 <=? n) && (n <=? 102) then Some (n - 97 + 10)  (* 'a'..'f' *)
  else if (65 <=? n) && (n <=? 70) then Some (n - 65 + 10)   (* 'A'..'F' *)
  else None.

(** [hex.Decode]: pairs of hexadecimal digits; an invalid character is
    reported before an odd length. The error keeps the kind of Go's
    message, not the offending character. *)
Fixpoint hex_Decode (src : list byte) : list byte * option error :=
  match src with
  | [] => ([], None)
  | [p] =>
      match fromHexChar p with
      | None => ([], Some (DecodeError "encoding/hex: invalid byte"))
      | Some _ => ([], Some (DecodeError "encoding/hex: odd length hex string"))
      end
  | p :: q :: rest =>
      match fromHexChar p, fromHexChar q with
      | Some a, Some b =>
          let (out, err) := hex_Decode rest in
          (z2b (Z.lor (Z.shiftl a 4) b) :: out, err)
      | _, _ => ([], Some (DecodeError "encoding/hex: invalid byte"))
      end
  end.

Definition hex_DecodeString (s : string) : list byte * option error :=
  hex_Decode (list_byte_of_string s).

Definition hex_digit (n : Z) : ascii :=
  ascii_of_nat (Z.to_nat (if n <? 10 then 48 + n else 97 + n - 10)).

(** [fmt.Sprintf("%x", data)] for a byte slice: two lower-case digits per
    byte. *)
Fixpoint sprintf_x (data : list byte) : string :=
  match data with
  | [] => EmptyString
  | b :: rest =>
      String (hex_digit (b2z b / 16))
        (String (hex_digit (b2z b mod 16)) (sprintf_x rest))
  end.

(** ** Power-state controller, command executor and command library *)

Section Core.

Variable bus : transport.

Local Open Scope go_scope.

Definition I2CWrite (b addr reg : Z) (data : list byte) : M (option error) :=
  fun t =>
    let t' := t ++ [I2CWrite_call b addr reg data] in
    (Returns (write_result bus t'), t').

Definition I2CRead (b addr reg : Z) (size : Z)
  : M (list byte * option error) :=
  fun t =>
    let t' := t ++ [I2CRead_call b addr reg size] in
    (Returns (read_result bus t'), t').

Definition time_Sleep (ms : Z) : M unit :=
  fun t => (Returns tt, t ++ [Delay_call ms]).

(** [func Wake() (err error)]. [data[0]] is evaluated only when [err] is
    not [nil]; it panics when [verifyResponse] left [data] empty. *)
Definition Wake : M (option error) :=
  _ <- I2CWrite I2CBus 0 0x01 [x00] ;;
  time_Sleep CmdMaxExecutionTime ;;;
  '(res, err) <- I2CRead I2CBus I2CAddress 0x00 4 ;;
  match err with
  | Some e => ret (Some e)
  | None =>
      let '(data, err) := verifyResponse res in
      match err with
      | None => ret None
      | Some e =>
          match data with
          | [] => panic
          | d0 :: _ =>
              if negb (b2z d0 =? 0x11) then ret (Some WakeFailed)
              else ret (Some e)
          end
      end
  end.

(** [func Sleep()]. *)
Definition Sleep : M unit :=
  _ <- I2CWrite I2CBus I2CAddress 0x01 [] ;;
  ret tt.

(** [func Idle()]. *)
Definition Idle : M unit :=
  _ <- I2CWrite I2CBus I2CAddress 0x02 [] ;;
  ret tt.

(** Lines 234-276 of [ExecuteCmd]: the exchange proper, after the optional
    wake-up. *)
Definition exchange (opcode param1 : byte) (param2 : byte * byte)
    (data : list byte) : M (list byte * option error) :=
  let cmd := command_frame opcode param1 param2 data in
  err <- I2CWrite I2CBus I2CAddress CmdAddress cmd ;;
  match err with
  | Some e => ret ([], Some e)
  | None =>
      time_Sleep CmdMaxExecutionTime ;;;
      _ <- I2CWrite I2CBus I2CAddress 0x00 [x00] ;;
      '(resCount, err) <- I2CRead I2CBus I2CAddress CmdAddress 1 ;;
      match err with
      | Some e => ret ([], Some e)
      | None =>
          match resCount with
          | [] => panic
          | n :: _ =>
              '(res, err) <- I2CRead I2CBus I2CAddress CmdAddress (b2z n) ;;
              match err with
              | Some e => ret (res, Some e)
              | None => ret (verifyResponse res)
              end
          end
      end
  end.

(** [func ExecuteCmd(opcode byte, param1 [1]byte, param2 [2]byte,
    data []byte, wake bool) (res []byte, err error)]. *)
Definition ExecuteCmd (opcode param1 : byte) (param2 : byte * byte)
    (data : list byte) (wake : bool) : M (list byte * option error) :=
  if wake then
    err <- Wake ;;
    match err with
    | Some e => ret ([], Some e)
    | None => defer Idle (exchange opcode param1 param2 data)
    end
  else exchange opcode param1 param2 data.

(** Lines 291-300 of [SHA256]: the message bytes for the two formats. An
    [sfmt] that is neither leaves [msg_bytes] at [nil]. *)
Definition sha_message (sfmt msg : string) : list byte * option error :=
  if String.eqb sfmt "hex" && (0 <? String.length msg)%nat
  then hex_DecodeString msg
  else if String.eqb sfmt "str" then (list_byte_of_string msg, None)
  else ([], None).

(** Lines 303-310 of [SHA256]: the loop over the 64-byte blocks, entered
    with [passes = block_cnt - i] passes to go. It yields the error that
    makes [SHA256] return early, if any. *)
Fixpoint sha_update_loop (passes i : nat) (msg_bytes : list byte)
  : M (option error) :=
  match passes with
  | O => ret None
  | S passes' =>
      block <- slice msg_bytes (i * 0x40) ((i + 1) * 0x40) ;;
      '(_, err) <- ExecuteCmd (Cmd "SHA256") (ShaMode "SHA_MODE_SHA256_UPDATE")
                     (x40, x00) block true ;;
      match err with
      | Some e => ret (Some e)
      | None => sha_update_loop passes' (S i) msg_bytes
      end
  end.

(** [func SHA256(sfmt string, msg string) (res string, err error)]. *)
Definition SHA256 (sfmt msg : string) : M (string * option error) :=
  '(_, err) <- ExecuteCmd (Cmd "SHA256") (ShaMode "SHA_MODE_SHA256_START")
                 (x00, x00) [] true ;;
  match err with
  | Some e => ret (EmptyString, Some e)
  | None =>
      let '(msg_bytes, err) := sha_message sfmt msg in
      match err with
      | Some e => ret (EmptyString, Some e)
      | None =>
          let block_cnt := (len msg_bytes / 64)%nat in
          err <- sha_update_loop block_cnt 0 msg_bytes ;;
          match err with
          | Some e => ret (EmptyString, Some e)
          | None =>
              tail <- slice msg_bytes (block_cnt * 64) (len msg_bytes) ;;
              '(data, err) <-
                 ExecuteCmd (Cmd "SHA256") (ShaMode "SHA_MODE_SHA256_END")
                   (z2b (Z.of_nat (len msg_bytes) - Z.of_nat block_cnt * 64),
                    x00)
                   tail true ;;
              match err with
              | Some e => ret (EmptyString, Some e)
              | None =>
                  Sleep ;;;
                  ret (("SHA256 HexDigest: " ++ sprintf_x data)%string, None)
              end
          end
      end
  end.

(** Lines 332-338 of [SelfTest]: one pass of the loop over [Test]. *)
Definition report_entry (result : byte) (res : string) (kv : string * byte)
  : string :=
  let (k, v) := kv in
  if negb (Z.land (b2z result) (b2z v) =? 0x00)
  then (res ++ (k ++ ":FAIL "))%string
  else (res ++ (k ++ ":PASS "))%string.

(** [func SelfTest() (res string, err error)]. [range_Test] is the order
    in which this run of [range Test] visits the map. [data[0]] is
    evaluated in the loop body, so an empty [data] panics on the first
    pass. *)
Definition SelfTest (range_Test : list (string * byte))
  : M (string * option error) :=
  '(data, err) <- ExecuteCmd (Cmd "SelfTest") x3b (x00, x00) [] true ;;
  match err with
  | Some e => ret (EmptyString, Some e)
  | None =>
      match data, range_Test with
      | [], _ :: _ => panic
      | _, _ =>
          let res :=
            fold_left (report_entry (nth 0 data x00)) range_Test EmptyString in
          Sleep ;;;
          ret (res, None)
      end
  end.

End Core.

(** ** Simulated devices, for running the package on concrete buses *)
Module Sim.

(** A device that acknowledges the wake-up and answers every command with
    the frame [response]: the 4-byte read at register 0 yields the
    after-wake frame, the 1-byte read yields the first byte of [response],
    any other read yields [response]. *)
Definition answer (response : list byte) (t : trace)
  : list byte * option error :=
  match last t (Delay_call 0) with
  | I2CRead_call _ _ reg size =>
      if reg =? 0x00 then ([x04; x11; x33; x43], None)
      else if size =? 1 then (firstn 1 response, None)
      else (response, None)
  | _ => ([], None)
  end.

Definition chip (response : list byte) : transport :=
  {| write_result := fun _ => None;
     read_result := answer response |}.

(** The same device behind a bus that does not acknowledge writes to
    register 0 of the device. *)
Definition chip_nack0 (response : list byte) : transport :=
  {| write_result := fun t =>
       match last t (Delay_call 0) with
       | I2CWrite_call _ addr reg _ =>
           if (addr =? I2CAddress) && (reg =? 0x00)
           then Some (TransportError "write error")
           else None
       | _ => None
       end;
     read_result := answer response |}.

(** A device whose every read yields [res]. *)
Definition reading (res : list byte) : transport :=
  {| write_result := fun _ => None;
     read_result := fun _ => (res, None) |}.

(** A bus on which every read fails. *)
Definition read_fails : transport :=
  {| write_result := fun _ => None;
     read_result := fun _ => ([], Some (TransportError "read error")) |}.

(** The status frame [04 00 03 40]: successful command execution. *)
Definition ok_frame : list byte := [x04; x00; x03; x40].

(** A 130-byte text message. *)
Definition text130 : string := string_of_list_byte (repeat "a"%byte 130).

End Sim.

(** The three bus calls of a wake-up. *)
Definition wake_calls : trace :=
  [ I2CWrite_call I2CBus 0 0x01 [x00];
    Delay_call CmdMaxExecutionTime;
    I2CRead_call I2CBus I2CAddress 0x00 4 ].

(** ** Vocabulary for the bus calls of an exchange *)

Definition wake_write : call := I2CWrite_call I2CBus 0 0x01 [x00].
Definition sleep_write : call := I2CWrite_call I2CBus I2CAddress 0x01 [].
Definition idle_write : call := I2CWrite_call I2CBus I2CAddress 0x02 [].
Definition trigger_write : call := I2CWrite_call I2CBus I2CAddress 0x00 [x00].
Definition command_write (frame : list byte) : call :=
  I2CWrite_call I2CBus I2CAddress CmdAddress frame.
Definition length_read : call := I2CRead_call I2CBus I2CAddress CmdAddress 1.
Definition payload_read (n : byte) : call :=
  I2CRead_call I2CBus I2CAddress CmdAddress (b2z n).

(** The error, if any, that the transport answers to the call [c] made
    after the calls [before]. *)
Definition reply_error (bus : transport) (before : trace) (c : call)
  : option error :=
  match c with
  | I2CWrite_call _ _ _ _ => write_result bus (before ++ [c])
  | I2CRead_call _ _ _ _ => snd (read_result bus (before ++ [c]))
  | Delay_call _ => None
  end.

(** The writes whose result the source assigns to the blank identifier. *)
Definition best_effort (c : call) : Prop :=
  c = wake_write \/ c = sleep_write \/ c = idle_write \/ c = trigger_write.

(** [P before c post] for every call [c] of [calls], where [before] is
    the whole trace preceding [c] and [post] the calls that follow it. *)
Fixpoint each_call (P : trace -> call -> trace -> Prop)
    (before calls : trace) : Prop :=
  match calls with
  | [] => True
  | c :: post => P before c post /\ each_call P (before ++ [c]) post
  end.

(** An error answered to [c] is either dropped on purpose or is the error
    the call returns, after which at most the deferred [Idle] follows. *)
Definition accounted (bus : transport) (o : outcome (list byte * option error))
    (before : trace) (c : call) (post : trace) : Prop :=
  forall e, reply_error bus before c = Some e ->
    best_effort c
    \/ ((exists res, o = Returns (res, Some e))
        /\ (post = [] \/ post = [idle_write])).


(** ** Vocabulary for the commands of the command library *)

(** The frames written to the command register of the device, oldest
    first. *)
Definition cmd_writes (t : trace) : list (list byte) :=
  flat_map
    (fun c =>
       match c with
       | I2CWrite_call b addr reg frame =>
           if (b =? I2CBus) && (addr =? I2CAddress) && (reg =? CmdAddress)
           then [frame] else []
       | _ => []
       end) t.

Record command : Type := {
  cmd_opcode : byte;
  cmd_param1 : byte;
  cmd_param2 : byte * byte;
  cmd_data : list byte
}.

Definition encode (c : command) : list byte :=
  command_frame (cmd_opcode c) (cmd_param1 c) (cmd_param2 c) (cmd_data c).

(** *** The Streaming Hash Digest as the specification words it

    One Start, then one Update per whole 64-byte block, the i-th carrying
    the bytes [64*i .. 64*i+63], then one End carrying the remaining
    [n mod 64] bytes with their count as param2. *)
Definition sha_start : command :=
  {| cmd_opcode := x47; cmd_param1 := x00; cmd_param2 := (x00, x00);
     cmd_data := [] |}.

Definition sha_update (block : list byte) : command :=
  {| cmd_opcode := x47; cmd_param1 := x01; cmd_param2 := (x40, x00);
     cmd_data := block |}.

Definition sha_end (count : nat) (trailing : list byte) : command :=
  {| cmd_opcode := x47; cmd_param1 := x02;
     cmd_param2 := (z2b (Z.of_nat count), x00);
     cmd_data := trailing |}.

Definition sha_block (msg : list byte) (i : nat) : list byte :=
  firstn 64 (skipn (64 * i) msg).

Definition sha_commands (msg : list byte) : list command :=
  let n := len msg in
  [sha_start]
  ++ map (fun i => sha_update (sha_block msg i)) (seq 0 (n / 64))
  ++ [sha_end (n mod 64) (skipn (64 * (n / 64)) msg)].

(** The entry of the self-test summary for one capability: its name, then
    FAIL when its bit is set in the result byte and PASS when it is
    clear. *)
Definition verdict (result : byte) (kv : string * byte) : string :=
  String.append (fst kv)
    (if negb (Z.land (b2z result) (b2z (snd kv)) =? 0)
     then ":FAIL "%string else ":PASS "%string).

(** The bus calls of one successful session-wrapped command exchange:
    wake-up, command-frame write, settle delay, result trigger, length
    read, payload read of [n] bytes, idle. *)
Definition session_calls (frame : list byte) (n : byte) : trace :=
  wake_calls
  ++ [ command_write frame; Delay_call CmdMaxExecutionTime; trigger_write;
       length_read; payload_read n; idle_write ].

(** The bus calls of a sequence of successful sessions, one per command,
    [ns] being the lengths announced by the device. *)
Definition sessions (cmds : list command) (ns : list byte) : trace :=
  List.concat (map (fun cn => session_calls (encode (fst cn)) (snd cn))
            (combine cmds ns)).

(** [b] with its bit [j] inverted. *)
Definition flip_bit (j : nat) (b : byte) : byte :=
  z2b (Z.lxor (b2z b) (2 ^ Z.of_nat j)).

(** Bitwise exclusive or of two bytes. *)
Definition xor_byte (a b : byte) : byte := z2b (Z.lxor (b2z a) (b2z b)).

(** After the result-trigger write the next bus call is the 1-byte length
    read ([post] are the calls that follow [c]). *)
Definition goes_on (before : trace) (c : call) (post : trace) : Prop :=
  c = trigger_write -> exists post', post = length_read :: post'.

(** Whether a call is the result-trigger write. *)
Definition is_trigger_write (c : call) : bool :=
  match c with
  | I2CWrite_call b addr reg data =>
      (b =? I2CBus) && (addr =? I2CAddress) && (reg =? 0x00)
      && bytes_Equal data [x00]
  | _ => false
  end.

Module SimNack.

(** The device of [Sim.chip] behind a bus that answers the result-trigger
    write, and no other call, with an error. *)
Definition nack_trigger (response : list byte) : transport :=
  {| write_result := fun t =>
       if is_trigger_write (last t (Delay_call 0))
       then Some (TransportError "write error")
       else None;
     read_result := Sim.answer response |}.

End SimNack.

(** *** The digest of an empty message as the specification words it

    One Start command, no Update, one End command carrying zero bytes with
    param2 = 0, each executed as a session-wrapped exchange, then Sleep.
    The only errors are those of the two exchanges. *)
Definition empty_digest (bus : transport) : M (string * option error) :=
  fun t =>
    match ExecuteCmd bus x47 x00 (x00, x00) [] true t with
    | (Panics, t1) => (Panics, t1)
    | (Returns (_, Some e), t1) => (Returns (EmptyString, Some e), t1)
    | (Returns (_, None), t1) =>
        match ExecuteCmd bus x47 x02 (x00, x00) [] true t1 with
        | (Panics, t2) => (Panics, t2)
        | (Returns (_, Some e), t2) => (Returns (EmptyString, Some e), t2)
        | (Returns (digest, None), t2) =>
            (Returns (("SHA256 HexDigest: " ++ sprintf_x digest)%string, None),
             t2 ++ [sleep_write])
        end
    end.

(** ** Identity read *)

(** Go's [s[lo:hi]] in general: the bounds are checked against the
    capacity of [s], not its length. [room] holds the elements of the
    backing array that lie beyond the length of [s], up to its capacity. *)
Definition slice_room (s room : list byte) (lo hi : nat) : M (list byte) :=
  if (lo <=? hi)%nat && (hi <=? len s + len room)%nat
  then ret (firstn (hi - lo) (skipn lo (s ++ room)))
  else panic.

Section Identity.

Variable bus : transport.

Local Open Scope go_scope.

(** [func Info() (res string, err error)]. The [data] returned by
    [ExecuteCmd] is the inner slice [res[1:size]] of the response, so its
    backing array goes on after its last element: [room] stands for what
    lies there (the two checksum bytes of the response, then whatever
    capacity the buffer of the transport has left). The three slice
    expressions are evaluated in the order of the source, before
    [Sleep]. *)
Definition Info (room : list byte) : M (string * option error) :=
  '(data, err) <- ExecuteCmd bus (Cmd "Read") x80 (x00, x00) [] true ;;
  match err with
  | Some e => ret (EmptyString, Some e)
  | None =>
      let serial := [] in
      d04 <- slice_room data room 0 4 ;;
      let serial := serial ++ d04 in
      d813 <- slice_room data room 8 13 ;;
      let serial := serial ++ d813 in
      revision <- slice_room data room 4 8 ;;
      Sleep bus ;;;
      ret (("serial:0x" ++ sprintf_x serial
            ++ " revision:0x" ++ sprintf_x revision)%string, None)
  end.

End Identity.

Module SimInfo.

(** The first 32 bytes of a configuration zone, as a response frame. *)
Definition config_zone : list byte :=
  [x01; x23; x45; x67; x00; x00; x60; x02; x89; xab; xcd; xef; x01]
  ++ repeat x00 19.

Definition config_frame : list byte :=
  (x23 :: config_zone) ++ crc16 (x23 :: config_zone).

End SimInfo.

(** * Properties *)

(** ** Properties of the checksum *)

Lemma b2z_range (b : byte) : 0 <= b2z b < 256.
Proof.
  unfold b2z. pose proof (Byte.to_N_bounded b) as H. lia.
Qed.

Lemma z2b_b2z (b : byte) : z2b (b2z b) = b.
Proof.
  unfold z2b. rewrite Z.mod_small by apply b2z_range.
  unfold b2z. rewrite N2Z.id, Byte.of_to_N. reflexivity.
Qed.

Lemma b2z_z2b (z : Z) : b2z (z2b z) = z mod 256.
Proof.
  unfold z2b, b2z.
  assert (Hr : 0 <= z mod 256 < 256) by (apply Z.mod_pos_bound; lia).
  destruct (Byte.of_N (Z.to_N (z mod 256))) as [b|] eqn:E.
  - apply Byte.to_of_N in E. rewrite E. lia.
  - apply Byte.of_N_None_iff in E. lia.
Qed.

Lemma bytes_Equal_spec (a b : list byte) : bytes_Equal a b = true <-> a = b.
Proof.
  revert b; induction a as [|x a IH]; intros [|y b]; simpl;
    try (split; [discriminate | discriminate]); try tauto.
  rewrite andb_true_iff, IH.
  split.
  - intros [Hx ->]. apply Byte.byte_dec_bl in Hx. subst; reflexivity.
  - intros H; inversion H; subst. split; [apply Byte.byte_dec_lb|]; reflexivity.
Qed.

Module CrcFacts.

Lemma shift_loop_unfold fuel shift d crc :
  0 < shift ->
  Crc.shift_loop (S fuel) shift d crc =
  Crc.shift_loop fuel ((Z.shiftl shift 1) mod 256) d (Crc.bit_step shift d crc).
Proof.
  intros H. simpl. apply Z.ltb_lt in H. rewrite H. reflexivity.
Qed.

(** The inner loop makes exactly eight passes, with the masks 1, 2, 4, ...,
    0x80 in that order, and then stops because the mask wraps to zero. *)
Lemma shift_loop_eight d crc :
  Crc.shift_loop 8 1 d crc =
  Some (fold_left (fun r i => Crc.bit_step (2 ^ Z.of_nat i) d r) (seq 0 8) crc).
Proof.
  do 8 (rewrite shift_loop_unfold by reflexivity;
        match goal with
        | |- context [Z.shiftl ?s 1 mod 256] =>
            let v := eval vm_compute in (Z.shiftl s 1 mod 256) in
            change (Z.shiftl s 1 mod 256) with v
        end).
  reflexivity.
Qed.

(** More fuel does not change the result of the inner loop. *)
Lemma shift_loop_more_fuel fuel k shift d crc r :
  Crc.shift_loop fuel shift d crc = Some r ->
  Crc.shift_loop (fuel + k) shift d crc = Some r.
Proof.
  revert shift crc; induction fuel as [|fuel IH]; intros shift crc; simpl.
  - destruct (0 <? shift) eqn:E; [discriminate|].
    intros H. destruct k; simpl; rewrite E; exact H.
  - destruct (0 <? shift); [apply IH | auto].
Qed.

Lemma shift_loop_terminates d crc :
  exists r, forall fuel, (8 <= fuel)%nat ->
    Crc.shift_loop fuel 1 d crc = Some r.
Proof.
  eexists. intros fuel H.
  replace fuel with (8 + (fuel - 8))%nat by lia.
  apply shift_loop_more_fuel, shift_loop_eight.
Qed.

Lemma byte_step_eq crc d :
  Crc.byte_step crc d =
  fold_left (fun r i => Crc.bit_step (2 ^ Z.of_nat i) d r) (seq 0 8) crc.
Proof. unfold Crc.byte_step. rewrite shift_loop_eight. reflexivity. Qed.

Lemma mask_test (b : byte) (i : nat) :
  (i < 8)%nat ->
  negb (Z.land (b2z b) (2 ^ Z.of_nat i) =? 0) = Z.testbit (b2z b) (Z.of_nat i).
Proof.
  intros H.
  do 8 (destruct i as [|i]; [destruct b; reflexivity|]).
  lia.
Qed.

Lemma carry_bit (crc : Z) :
  0 <= crc < 65536 ->
  (Z.shiftr crc 15) mod 256 = if Z.testbit crc 15 then 1 else 0.
Proof.
  intros H. rewrite Z.testbit_odd, Z.shiftr_div_pow2 by lia.
  change (2 ^ 15) with 32768.
  assert (Hq : crc / 32768 = 0 \/ crc / 32768 = 1).
  { assert (0 <= crc / 32768 < 2).
    { split; [apply Z.div_pos; lia | apply Z.div_lt_upper_bound; lia]. }
    lia. }
  destruct Hq as [-> | ->]; reflexivity.
Qed.

(** On a 16-bit register the loop body of the source and the step of the
    reference algorithm agree. *)
Lemma bit_step_ref (b : byte) (crc : Z) (i : nat) :
  (i < 8)%nat -> 0 <= crc < 65536 ->
  Crc.bit_step (2 ^ Z.of_nat i) b crc = CrcRef.step_bit b crc i.
Proof.
  intros Hi Hc. unfold Crc.bit_step, CrcRef.step_bit.
  rewrite (mask_test b i Hi), (carry_bit crc Hc), Z.shiftl_mul_pow2 by lia.
  change (2 ^ 1) with 2. change (2 ^ 16) with 65536. rewrite (Z.mul_comm crc 2).
  unfold CRC16Poly.
  destruct (Z.testbit (b2z b) (Z.of_nat i)), (Z.testbit crc 15); reflexivity.
Qed.

Lemma lxor_poly_range (r : Z) : 0 <= r < 65536 -> 0 <= Z.lxor r 0x8005 < 65536.
Proof.
  intros H. split.
  - apply Z.lxor_nonneg. lia.
  - destruct (Z.eq_dec (Z.lxor r 32773) 0) as [E|E]; [lia|].
    assert (Hp : 0 < Z.lxor r 32773).
    { assert (0 <= Z.lxor r 32773) by (apply Z.lxor_nonneg; lia). lia. }
    change 65536 with (2 ^ 16). apply Z.log2_lt_pow2; [exact Hp|].
    eapply Z.le_lt_trans; [apply Z.log2_lxor; lia|].
    apply Z.max_lub_lt.
    + destruct (Z.eq_dec r 0) as [->|]; [reflexivity|].
      apply Z.log2_lt_pow2; lia.
    + reflexivity.
Qed.

Lemma step_bit_range (b : byte) (reg : Z) (i : nat) :
  0 <= CrcRef.step_bit b reg i < 65536.
Proof.
  unfold CrcRef.step_bit. change (2 ^ 16) with 65536.
  assert (H : 0 <= (2 * reg) mod 65536 < 65536) by (apply Z.mod_pos_bound; lia).
  destruct (Bool.eqb _ _); [exact H | apply lxor_poly_range, H].
Qed.

Lemma fold_bits_ref (b : byte) (l : list nat) (crc : Z) :
  Forall (fun i => (i < 8)%nat) l -> 0 <= crc < 65536 ->
  fold_left (fun r i => Crc.bit_step (2 ^ Z.of_nat i) b r) l crc =
  fold_left (CrcRef.step_bit b) l crc
  /\ 0 <= fold_left (CrcRef.step_bit b) l crc < 65536.
Proof.
  intros Hl; revert crc; induction Hl as [|i l Hi Hl IH]; intros crc Hc; simpl.
  - auto.
  - rewrite (bit_step_ref b crc i Hi Hc). apply IH, step_bit_range.
Qed.

Lemma byte_step_ref (crc : Z) (b : byte) :
  0 <= crc < 65536 ->
  Crc.byte_step crc b = CrcRef.step_byte crc b
  /\ 0 <= CrcRef.step_byte crc b < 65536.
Proof.
  intros Hc. rewrite byte_step_eq. unfold CrcRef.step_byte.
  apply fold_bits_ref; [|exact Hc].
  repeat constructor.
Qed.

Lemma fold_bytes_ref (data : list byte) (crc : Z) :
  0 <= crc < 65536 ->
  fold_left Crc.byte_step data crc = fold_left CrcRef.step_byte data crc
  /\ 0 <= fold_left CrcRef.step_byte data crc < 65536.
Proof.
  revert crc; induction data as [|b data IH]; intros crc Hc; simpl.
  - auto.
  - destruct (byte_step_ref crc b Hc) as [-> Hr]. apply IH, Hr.
Qed.

Lemma register_ref (data : list byte) :
  Crc.register data = CrcRef.register data /\ 0 <= Crc.register data < 65536.
Proof.
  unfold Crc.register, CrcRef.register.
  destruct (fold_bytes_ref data 0) as [E R]; [lia|].
  rewrite E. auto.
Qed.

End CrcFacts.

(** [crc16] always yields exactly two bytes. *)
Lemma crc16_length (data : list byte) : len (crc16 data) = 2%nat.
Proof. reflexivity. Qed.

(** C1. For every byte sequence, [crc16] computes the reference bit-serial
    CRC-16 of the specification: register starting at zero, input bits
    taken from least to most significant, left shift and XOR with 0x8005
    exactly when the input bit differs from bit 15 of the register, result
    emitted low byte first. *)
Theorem crc16_refines_reference (data : list byte) :
  crc16 data = CrcRef.checksum data.
Proof.
  unfold crc16, CrcRef.checksum.
  destruct (CrcFacts.register_ref data) as [E R]. rewrite <- E.
  change 0xff with (Z.ones 8).
  rewrite Z.land_ones, Z.shiftr_div_pow2 by lia.
  reflexivity.
Qed.

(** ** Properties of the packet codec *)

Lemma b2z_inj (a b : byte) : b2z a = b2z b -> a = b.
Proof.
  intros H. rewrite <- (z2b_b2z a), <- (z2b_b2z b), H. reflexivity.
Qed.

Lemma b2z_eqb (a : byte) (z : Z) :
  0 <= z < 256 -> (b2z a =? z) = true <-> a = z2b z.
Proof.
  intros Hz. rewrite Z.eqb_eq. split.
  - intros <-. symmetry; apply z2b_b2z.
  - intros ->. rewrite b2z_z2b. apply Z.mod_small, Hz.
Qed.

(** The status test of [verifyResponse] (the table lookup against the empty
    string, then [status != 0 && (status <= 0x0f || status == 0xff)])
    classifies every byte the way the Status Code enumeration does. *)
Lemma status_test_decodes (status : byte) :
  (if String.eqb (Status status) ""
   then Some (UnknownStatus status)
   else if negb (b2z status =? 0x00)
           && ((b2z status <=? 0x0f) || (b2z status =? 0xff))
        then Some (DeviceError (Status status))
        else None)
  = status_error status.
Proof. destruct status; reflexivity. Qed.

(** What [verifyResponse] returns once the length and checksum checks have
    passed: the branch is taken on the count byte [res[0]]. *)
Lemma verifyResponse_checked (res : list byte) :
  passes_checks res ->
  verifyResponse res =
  ( response_data res,
    if b2z (nth 0 res x00) =? 4
    then status_error (nth 0 (response_data res) x00)
    else None ).
Proof.
  intros [Hlen Hcrc]. unfold verifyResponse, ResponseMinLen, response_data.
  replace (Z.of_nat (len res) <? 4) with false
    by (symmetry; apply Z.ltb_ge; lia).
  rewrite Hcrc.
  replace (bytes_Equal _ _) with true
    by (symmetry; apply bytes_Equal_spec; reflexivity).
  cbn [negb].
  destruct (b2z (nth 0 res x00) =? 4); cbn [negb]; [|reflexivity].
  set (data := skipn 1 (firstn (len res - 2) res)).
  pose proof (status_test_decodes (nth 0 data x00)) as H.
  destruct (String.eqb (Status (nth 0 data x00)) "").
  - rewrite <- H. reflexivity.
  - destruct (negb _ && _); rewrite <- H; reflexivity.
Qed.

(** C2, as amended. For every received buffer that passes the length and
    checksum checks, [verifyResponse] interprets the first payload byte as
    a Status Code exactly when the count byte [res[0]] equals 4; when the
    count byte differs from 4 the bytes between it and the trailing
    checksum are returned unfiltered, with no error. *)
Theorem verifyResponse_status_iff_count_byte (res : list byte) :
  passes_checks res ->
  (nth 0 res x00 = x04 ->
     verifyResponse res =
     (response_data res, status_error (nth 0 (response_data res) x00)))
  /\ (nth 0 res x00 <> x04 ->
     verifyResponse res = (response_data res, None)).
Proof.
  intros H. rewrite (verifyResponse_checked res H). split.
  - intros ->. reflexivity.
  - intros Hc. destruct (b2z (nth 0 res x00) =? 4) eqn:E; [|reflexivity].
    apply b2z_eqb in E; [|lia]. contradiction.
Qed.

Lemma verifyResponse_status_iff_count_byte_witness :
  verifyResponse [x04; x01; x00; xc3] = ([x01], Some (DeviceError "checkmac or verify miscompare"))
  /\ verifyResponse [x07; x2a; x01; x02; x03; x9e; xb5]
     = ([x2a; x01; x02; x03], None).
Proof.
  assert (H1 : passes_checks [x04; x01; x00; xc3])
    by (split; [simpl; lia | reflexivity]).
  assert (H2 : passes_checks [x07; x2a; x01; x02; x03; x9e; xb5])
    by (split; [simpl; lia | reflexivity]).
  split.
  - exact (proj1 (verifyResponse_status_iff_count_byte _ H1) eq_refl).
  - apply (proj2 (verifyResponse_status_iff_count_byte _ H2)). discriminate.
Defined.

(** C2, counterexample. A five-byte buffer with a valid checksum whose count
    byte is 4: its total length is greater than 4, yet its first payload
    byte is interpreted as a status and the call fails with a
    [DeviceError]. *)
Lemma verifyResponse_long_buffer_status_checked :
  let res := [x04; x01; x00] ++ crc16 [x04; x01; x00] in
  passes_checks res
  /\ (4 < len res)%nat
  /\ verifyResponse res
     = ([x01; x00], Some (DeviceError "checkmac or verify miscompare"))
  /\ verifyResponse res <> (response_data res, None).
Proof.
  cbv zeta. repeat split; try reflexivity.
  - simpl; lia.
  - simpl; lia.
  - vm_compute. discriminate.
Qed.

(** The command packet, field by field. *)
Lemma command_frame_fields opcode param1 param2 data :
  command_frame opcode param1 param2 data =
  let prefix :=
    [z2b (7 + Z.of_nat (len data)); opcode; param1; fst param2; snd param2]
    ++ data in
  prefix ++ crc16 prefix.
Proof. reflexivity. Qed.

(** C5, as amended. For every opcode, param1, param2 and data the encoded
    command frame is count, opcode, param1, param2, data, checksum in that
    order, where the count byte is [7 + len(data)] truncated to one byte
    (so it equals [7 + len(data)] up to 248 data bytes), and the trailing
    two bytes of the frame equal the checksum recomputed over everything
    before them. *)
Theorem command_frame_layout_roundtrip
    (opcode param1 : byte) (param2 : byte * byte) (data : list byte) :
  let frame := command_frame opcode param1 param2 data in
  let prefix := firstn (len frame - 2) frame in
  prefix = [z2b (7 + Z.of_nat (len data)); opcode; param1;
            fst param2; snd param2] ++ data
  /\ b2z (nth 0 frame x00) = (7 + Z.of_nat (len data)) mod 256
  /\ frame = prefix ++ crc16 prefix
  /\ skipn (len frame - 2) frame = crc16 prefix.
Proof.
  cbv zeta. rewrite command_frame_fields. cbv zeta.
  set (prefix := _ ++ data).
  assert (Hl : (len (prefix ++ crc16 prefix) - 2 = len prefix)%nat).
  { rewrite length_app, crc16_length. lia. }
  rewrite Hl, firstn_app, Nat.sub_diag, firstn_all, skipn_app, Nat.sub_diag,
    skipn_all.
  cbn [firstn skipn app]. rewrite app_nil_r.
  repeat split.
  unfold prefix. cbn [app nth]. apply b2z_z2b.
Qed.

(** C5, counterexample. With 249 data bytes the count byte of the frame is
    0, not 256 = 7 + 249: the sum is truncated by the conversion to
    [byte]. *)
Lemma command_frame_count_wraps :
  let data := repeat x00 249 in
  let frame := command_frame x47 x01 (x40, x00) data in
  b2z (nth 0 frame x00) = 0
  /\ 7 + Z.of_nat (len data) = 256
  /\ b2z (nth 0 frame x00) <> 7 + Z.of_nat (len data).
Proof. vm_compute. repeat split; discriminate. Qed.

(** C6, as amended. For every 4-byte response with a valid checksum whose
    count byte is 4: status byte 0x00 yields no error, status byte 0x01
    yields a [DeviceError] carrying "checkmac or verify miscompare", and a
    status byte outside the known enumeration (0x42 is one) yields
    [UnknownStatus]. *)
Theorem verifyResponse_status_decoding (res : list byte) :
  len res = 4%nat ->
  passes_checks res ->
  nth 0 res x00 = x04 ->
  let status := nth 1 res x00 in
  let err := snd (verifyResponse res) in
  (status = x00 -> err = None)
  /\ (status = x01 ->
      err = Some (DeviceError "checkmac or verify miscompare"))
  /\ (status_of_byte status = Unknown -> err = Some (UnknownStatus status))
  /\ status_of_byte x42 = Unknown.
Proof.
  intros Hlen Hchk Hcount.
  rewrite (verifyResponse_checked res Hchk), Hcount.
  change (b2z x04 =? 4) with true. cbv iota.
  destruct res as [|c [|s [|c1 [|c2 [|x res]]]]]; try discriminate Hlen.
  cbn. repeat split.
  - intros ->. reflexivity.
  - intros ->. reflexivity.
  - intros H. unfold status_error. rewrite H. reflexivity.
Qed.

Lemma verifyResponse_status_decoding_witness :
  snd (verifyResponse [x04; x42; x8f; x41]) = Some (UnknownStatus x42)
  /\ snd (verifyResponse [x04; x00; x03; x40]) = None.
Proof.
  assert (H1 : passes_checks [x04; x42; x8f; x41])
    by (split; [simpl; lia | reflexivity]).
  assert (H2 : passes_checks [x04; x00; x03; x40])
    by (split; [simpl; lia | reflexivity]).
  split.
  - exact (proj1 (proj2 (proj2
      (verifyResponse_status_decoding [x04; x42; x8f; x41]
         eq_refl H1 eq_refl))) eq_refl).
  - exact (proj1
      (verifyResponse_status_decoding [x04; x00; x03; x40]
         eq_refl H2 eq_refl) eq_refl).
Defined.

(** C6, counterexample. A 4-byte response with a valid checksum whose
    status byte 0x42 is outside the enumeration, but whose count byte is
    5: it is accepted without error. *)
Lemma verifyResponse_unknown_status_passes :
  let res := [x05; x42] ++ crc16 [x05; x42] in
  len res = 4%nat
  /\ passes_checks res
  /\ status_of_byte (nth 1 res x00) = Unknown
  /\ verifyResponse res = ([x42], None).
Proof.
  cbv zeta. repeat split; reflexivity.
Qed.

(** ** Properties of the power-state controller *)

(** C7, as amended. Every call to [Sleep] performs a single write with
    register address 0x01 and no data bytes, and every call to [Idle] a
    single write with register address 0x02 and no data bytes, both to the
    device address; whatever the transport answers, the call returns
    nothing and the answer is dropped. *)
Theorem Sleep_Idle_single_write (bus : transport) (t : trace) :
  Sleep bus t = (Returns tt, t ++ [I2CWrite_call I2CBus I2CAddress 0x01 []])
  /\ Idle bus t = (Returns tt, t ++ [I2CWrite_call I2CBus I2CAddress 0x02 []]).
Proof. split; reflexivity. Qed.

(** C7, counterexample. The write of [Sleep] goes to register 0x01, not to
    the command register 0x03, and carries no byte; likewise [Idle] with
    register 0x02. *)
Lemma Sleep_Idle_not_command_register :
  snd (Sleep (Sim.chip []) []) = [I2CWrite_call 0 0x60 0x01 []]
  /\ snd (Sleep (Sim.chip []) [])
     <> [I2CWrite_call I2CBus I2CAddress CmdAddress [x01]]
  /\ snd (Idle (Sim.chip []) []) = [I2CWrite_call 0 0x60 0x02 []]
  /\ snd (Idle (Sim.chip []) [])
     <> [I2CWrite_call I2CBus I2CAddress CmdAddress [x02]].
Proof. repeat split; try reflexivity; discriminate. Qed.

Lemma verifyResponse_data (res : list byte) :
  (4 <= len res)%nat -> fst (verifyResponse res) = response_data res.
Proof.
  intros H. unfold verifyResponse, ResponseMinLen, response_data.
  replace (Z.of_nat (len res) <? 4) with false
    by (symmetry; apply Z.ltb_ge; lia).
  repeat match goal with
         | |- context [if ?c then _ else _] => destruct c
         end; reflexivity.
Qed.

Lemma verifyResponse_error_kinds (res : list byte) (e : error) :
  snd (verifyResponse res) = Some e ->
  e = MalformedFrame \/ e = ChecksumMismatch
  \/ (exists s, e = UnknownStatus s) \/ (exists r, e = DeviceError r).
Proof.
  unfold verifyResponse.
  repeat match goal with
         | |- context [if ?c then _ else _] => destruct c
         end; cbn [snd]; intros H; inversion H; eauto.
Qed.

(** [Wake] spelled out on the answer of the verifying read. *)
Lemma Wake_unfold (bus : transport) (t : trace) :
  Wake bus t =
  ( match read_result bus (t ++ wake_calls) with
    | (_, Some e) => Returns (Some e)
    | (res, None) =>
        match verifyResponse res with
        | (_, None) => Returns None
        | ([], Some _) => Panics
        | (d0 :: _, Some e) =>
            if b2z d0 =? 0x11 then Returns (Some e)
            else Returns (Some WakeFailed)
        end
    end,
    t ++ wake_calls ).
Proof.
  unfold Wake, bind, I2CWrite, I2CRead, time_Sleep, ret, panic, wake_calls.
  rewrite <- !app_assoc. cbn [app].
  destruct (read_result bus _) as [res [e|]]; [reflexivity|].
  destruct (verifyResponse res) as [[|d0 data] [e|]]; try reflexivity.
  destruct (b2z d0 =? 17); reflexivity.
Qed.

(** C4, as amended. For every answer of the verifying 4-byte read: a
    transport error is returned unchanged; otherwise, on a 4-byte answer,
    [Wake] returns success exactly when response verification succeeds
    (which it does on a valid after-wake status frame), fails with
    [WakeFailed] exactly when verification fails and the byte after the
    count byte is not 0x11, and returns the verification error itself when
    verification fails and that byte is 0x11. *)
Theorem Wake_verdict (bus : transport) (t : trace)
    (res : list byte) (rerr : option error) :
  read_result bus (t ++ wake_calls) = (res, rerr) ->
  (rerr = None -> len res = 4%nat) ->
  exists err,
    Wake bus t = (Returns err, t ++ wake_calls)
    /\ match rerr with
       | Some e => err = Some e
       | None =>
           let verr := snd (verifyResponse res) in
           (err = None <-> verr = None)
           /\ (err = Some WakeFailed <-> verr <> None /\ nth 1 res x00 <> x11)
           /\ (verr <> None -> nth 1 res x00 = x11 -> err = verr)
       end.
Proof.
  intros Hread Hlen. rewrite Wake_unfold, Hread.
  destruct rerr as [e|]; [eexists; split; reflexivity|].
  specialize (Hlen eq_refl).
  assert (Hdata : fst (verifyResponse res) = [nth 1 res x00]).
  { rewrite verifyResponse_data by lia. unfold response_data.
    destruct res as [|c [|s [|c1 [|c2 [|x res]]]]]; try discriminate Hlen.
    reflexivity. }
  pose proof (verifyResponse_error_kinds res) as Hkind.
  destruct (verifyResponse res) as [data [e|]]; cbn [fst snd] in *; subst data.
  - assert (Hne : e <> WakeFailed).
    { destruct (Hkind _ eq_refl) as [->|[->|[[? ->]|[? ->]]]]; discriminate. }
    destruct (b2z (nth 1 res x00) =? 17) eqn:E.
    + apply b2z_eqb in E; [|lia]. change (z2b 17) with x11 in E.
      eexists; split; [reflexivity|]. cbv zeta. split; [|split].
      * tauto.
      * split.
        -- intros H. inversion H. contradiction.
        -- intros [_ H]. contradiction.
      * reflexivity.
    + assert (Hn : nth 1 res x00 <> x11).
      { intros H. rewrite H in E. discriminate E. }
      eexists; split; [reflexivity|]. cbv zeta. split; [|split].
      * split; discriminate.
      * split; [intros _; split; [discriminate | exact Hn] | reflexivity].
      * intros _ H. contradiction.
  - eexists; split; [reflexivity|]. cbv zeta. split; [|split].
    + tauto.
    + split; [discriminate | intros [H _]; exfalso; apply H; reflexivity].
    + intros H. exfalso; apply H; reflexivity.
Qed.

Lemma Wake_verdict_witness :
  Wake (Sim.reading [x04; x11; x33; x43]) [] = (Returns None, wake_calls)
  /\ Wake (Sim.reading [x04; x01; x00; xc3]) []
     = (Returns (Some WakeFailed), wake_calls).
Proof.
  split.
  - destruct (Wake_verdict (Sim.reading [x04; x11; x33; x43]) []
                [x04; x11; x33; x43] None eq_refl (fun _ => eq_refl))
      as [err [H [H1 _]]].
    rewrite H. rewrite (proj2 H1 eq_refl). reflexivity.
  - destruct (Wake_verdict (Sim.reading [x04; x01; x00; xc3]) []
                [x04; x01; x00; xc3] None eq_refl (fun _ => eq_refl))
      as [err [H [_ [H2 _]]]].
    rewrite H. rewrite (proj2 H2); [reflexivity|].
    split; discriminate.
Defined.

(** C4, counterexample. The verifying read yields a frame whose checksum
    is wrong and whose second byte is 0x11: verification fails with a
    checksum mismatch, which is not the after-wake status, and [Wake]
    returns that error instead of [WakeFailed]. *)
Lemma Wake_checksum_error_not_WakeFailed :
  let res := [x04; x11; x00; x00] in
  verifyResponse res = ([x11], Some ChecksumMismatch)
  /\ Wake (Sim.reading res) [] = (Returns (Some ChecksumMismatch), wake_calls)
  /\ fst (Wake (Sim.reading res) []) <> Returns (Some WakeFailed).
Proof. repeat split; try reflexivity. discriminate. Qed.

(** ** Properties of the command executor *)

Lemma each_call_split P before calls :
  each_call P before calls ->
  forall pre c post, calls = pre ++ c :: post -> P (before ++ pre) c post.
Proof.
  revert before; induction calls as [|c0 calls IH]; intros before H pre c post E.
  - destruct pre; discriminate E.
  - destruct H as [H0 H]. destruct pre as [|p pre]; cbn [app] in E.
    + inversion E; subst. rewrite app_nil_r. exact H0.
    + inversion E; subst.
      replace (before ++ p :: pre) with ((before ++ [p]) ++ pre)
        by (rewrite <- app_assoc; reflexivity).
      apply IH; [exact H | reflexivity].
Qed.

(** The exchange spelled out on the answers of the transport. *)
Lemma exchange_unfold (bus : transport) opcode param1 param2 data (t : trace) :
  exchange bus opcode param1 param2 data t =
  let w := command_write (command_frame opcode param1 param2 data) in
  match write_result bus (t ++ [w]) with
  | Some e => (Returns ([], Some e), t ++ [w])
  | None =>
      let t4 := t ++ [w; Delay_call CmdMaxExecutionTime; trigger_write;
                      length_read] in
      match read_result bus t4 with
      | (_, Some e) => (Returns ([], Some e), t4)
      | ([], None) => (Panics, t4)
      | (n :: _, None) =>
          let t5 := t ++ [w; Delay_call CmdMaxExecutionTime; trigger_write;
                          length_read; payload_read n] in
          match read_result bus t5 with
          | (res, Some e) => (Returns (res, Some e), t5)
          | (res, None) => (Returns (verifyResponse res), t5)
          end
      end
  end.
Proof.
  unfold exchange, bind, I2CWrite, I2CRead, time_Sleep, ret, panic,
    command_write, trigger_write, length_read, payload_read.
  cbv zeta.
  destruct (write_result bus _) as [e|]; [reflexivity|].
  rewrite <- !app_assoc. cbn [app].
  destruct (read_result bus _) as [[|n rc] [e|]]; try reflexivity.
  rewrite <- !app_assoc. cbn [app].
  destruct (read_result bus _) as [res [e|]]; reflexivity.
Qed.

Ltac normalize_traces :=
  repeat match goal with
         | H : context [(_ ++ _) ++ _] |- _ => rewrite <- app_assoc in H
         end;
  rewrite <- ?app_assoc; cbn [app] in *.

Ltac settle_call :=
  let e := fresh "e" in
  let He := fresh "He" in
  intros e He; unfold reply_error in He;
  rewrite <- ?app_assoc in He; cbn [app] in He;
  first
    [ discriminate He
    | left; unfold best_effort, wake_write, sleep_write, idle_write,
        trigger_write, command_write, length_read, payload_read;
      solve [auto 6]
    | right;
      repeat match goal with
             | H : write_result _ _ = _ |- _ => rewrite H in He
             | H : read_result _ _ = _ |- _ => rewrite H in He
             end;
      cbn [snd] in He;
      first [ discriminate He
            | inversion He; subst; split; [eexists; reflexivity | auto] ] ].

Ltac case_write e E :=
  match goal with
  | |- context [write_result ?bus ?x] =>
      destruct (write_result bus x) as [e|] eqn:E
  end.

Ltac case_read r e E :=
  match goal with
  | |- context [read_result ?bus ?x] =>
      destruct (read_result bus x) as [r [e|]] eqn:E
  end.

Ltac settle_leaf :=
  cbn [snd fst]; normalize_traces;
  eexists; (split; [reflexivity|]); cbn [each_call];
  normalize_traces; repeat split; settle_call.

Lemma ExecuteCmd_accounted (bus : transport) opcode param1 param2 data wake
    (t : trace) :
  exists calls,
    snd (ExecuteCmd bus opcode param1 param2 data wake t) = t ++ calls
    /\ each_call
         (accounted bus (fst (ExecuteCmd bus opcode param1 param2 data wake t)))
         t calls.
Proof.
  unfold ExecuteCmd. destruct wake.
  - unfold bind, defer. rewrite Wake_unfold. unfold wake_calls.
    case_read res e Ewake.
    { unfold ret. settle_leaf. }
    destruct (verifyResponse res) as [[|d0 vdata] [ve|]] eqn:Ever.
    2, 4: rewrite exchange_unfold; cbv zeta;
      unfold Idle, bind, I2CWrite, ret; cbn [snd fst]; normalize_traces;
      (case_write e Ew; [settle_leaf|]);
      (case_read rc e Er1; destruct rc as [|n rc];
         [settle_leaf | settle_leaf | settle_leaf | ]);
      (case_read res2 e Er2; settle_leaf).
    + settle_leaf.
    + destruct (b2z d0 =? 17); unfold ret; settle_leaf.
  - rewrite exchange_unfold. cbv zeta.
    (case_write e Ew; [settle_leaf|]).
    (case_read rc e Er1; destruct rc as [|n rc];
       [settle_leaf | settle_leaf | settle_leaf | ]).
    case_read res2 e Er2; settle_leaf.
Qed.

Lemma command_write_not_best_effort (frame : list byte) :
  ~ best_effort (command_write frame).
Proof.
  unfold best_effort, command_write, wake_write, sleep_write, idle_write,
    trigger_write.
  intros [H|[H|[H|H]]]; discriminate H.
Qed.

(** What a bus answers to the best-effort writes has no effect on an
    [ExecuteCmd]: two buses that agree on every read and on every other
    write give the same outcome and the same bus calls. *)
Lemma ExecuteCmd_ignores_best_effort (bus bus' : transport)
    opcode param1 param2 data wake (t : trace) :
  (forall tr, read_result bus' tr = read_result bus tr) ->
  (forall before c, ~ best_effort c ->
     write_result bus' (before ++ [c]) = write_result bus (before ++ [c])) ->
  ExecuteCmd bus' opcode param1 param2 data wake t
  = ExecuteCmd bus opcode param1 param2 data wake t.
Proof.
  intros Hread Hwrite.
  assert (Hex : forall t0,
             exchange bus' opcode param1 param2 data t0
             = exchange bus opcode param1 param2 data t0).
  { intros t0. rewrite !exchange_unfold. cbv zeta.
    rewrite (Hwrite t0 _ (command_write_not_best_effort _)), !Hread.
    destruct (write_result bus _); [reflexivity|].
    destruct (read_result bus _) as [[|n rc] [e|]]; try reflexivity.
    rewrite Hread. reflexivity. }
  unfold ExecuteCmd. destruct wake; [|apply Hex].
  unfold bind, defer. rewrite !Wake_unfold, Hread.
  destruct (read_result bus _) as [res [e|]]; [reflexivity|].
  destruct (verifyResponse res) as [[|d0 vd] [ve|]]; try reflexivity.
  - rewrite Hex. reflexivity.
  - destruct (b2z d0 =? 17); reflexivity.
  - rewrite Hex. reflexivity.
Qed.

Ltac settle_goes_on :=
  let H := fresh "H" in
  intros H;
  first [ discriminate H
        | eexists; reflexivity ].

Ltac settle_continue :=
  cbn [snd fst]; normalize_traces;
  eexists; (split; [reflexivity|]); cbn [each_call];
  unfold goes_on, trigger_write, command_write, length_read, payload_read;
  repeat split; settle_goes_on.

Lemma ExecuteCmd_goes_on (bus : transport) opcode param1 param2 data wake
    (t : trace) :
  exists calls,
    snd (ExecuteCmd bus opcode param1 param2 data wake t) = t ++ calls
    /\ each_call goes_on t calls.
Proof.
  unfold ExecuteCmd. destruct wake.
  - unfold bind, defer. rewrite Wake_unfold. unfold wake_calls.
    case_read res e Ewake.
    { unfold ret. settle_continue. }
    destruct (verifyResponse res) as [[|d0 vdata] [ve|]] eqn:Ever.
    2, 4: rewrite exchange_unfold; cbv zeta;
      unfold Idle, bind, I2CWrite, ret; cbn [snd fst]; normalize_traces;
      (case_write e Ew; [settle_continue|]);
      (case_read rc e Er1; destruct rc as [|n rc];
         [settle_continue | settle_continue | settle_continue | ]);
      (case_read res2 e Er2; settle_continue).
    + settle_continue.
    + destruct (b2z d0 =? 17); unfold ret; settle_continue.
  - rewrite exchange_unfold. cbv zeta.
    (case_write e Ew; [settle_continue|]).
    (case_read rc e Er1; destruct rc as [|n rc];
       [settle_continue | settle_continue | settle_continue | ]).
    case_read res2 e Er2; settle_continue.
Qed.

(** C3, as amended. In [ExecuteCmd], for every transport behaviour, a
    transport error at the command-frame write, at the verifying read of
    the wake-up, at the 1-byte length read or at the payload read is the
    error returned to the caller, and nothing follows it on the bus except
    the deferred [Idle] write. The error of the result-trigger zero-byte
    write to register 0 is discarded and the exchange continues: the
    length read always follows that write, and neither the outcome nor the
    bus calls depend on what the transport answers to it. The only writes
    whose errors are discarded are the first wake write, the Sleep/Idle
    writes and the result-trigger write. *)
Theorem ExecuteCmd_transport_errors (bus : transport)
    opcode param1 param2 data wake (t : trace) o t' :
  ExecuteCmd bus opcode param1 param2 data wake t = (o, t') ->
  (exists calls,
     t' = t ++ calls
     /\ (forall pre c post e,
           calls = pre ++ c :: post ->
           reply_error bus (t ++ pre) c = Some e ->
           ~ best_effort c ->
           (exists res, o = Returns (res, Some e))
           /\ (post = [] \/ post = [idle_write]))
     /\ (forall pre post,
           calls = pre ++ trigger_write :: post ->
           exists post', post = length_read :: post'))
  /\ (forall bus',
        (forall tr, read_result bus' tr = read_result bus tr) ->
        (forall before c, ~ best_effort c ->
           write_result bus' (before ++ [c])
           = write_result bus (before ++ [c])) ->
        ExecuteCmd bus' opcode param1 param2 data wake t = (o, t')).
Proof.
  intros H. split.
  - destruct (ExecuteCmd_accounted bus opcode param1 param2 data wake t)
      as [calls [Ht Hc]].
    destruct (ExecuteCmd_goes_on bus opcode param1 param2 data wake t)
      as [calls' [Ht' Hg]].
    assert (calls' = calls) by (apply (app_inv_head t); congruence).
    subst calls'.
    rewrite H in Ht, Hc. cbn [fst snd] in Ht, Hc.
    exists calls. split; [exact Ht|]. split.
    + intros pre c post e Hsplit He Hnb.
      destruct (each_call_split _ _ _ Hc pre c post Hsplit e He) as [Hb|Hp];
        [contradiction | exact Hp].
    + intros pre post Hsplit.
      exact (each_call_split _ _ _ Hg pre trigger_write post Hsplit eq_refl).
  - intros bus' Hread Hwrite. rewrite <- H.
    apply ExecuteCmd_ignores_best_effort; assumption.
Qed.

Lemma is_trigger_write_false (c : call) :
  ~ best_effort c -> is_trigger_write c = false.
Proof.
  intros Hnb. destruct (is_trigger_write c) eqn:E; [|reflexivity].
  exfalso. apply Hnb. right; right; right.
  destruct c as [b addr reg data| |]; try discriminate E.
  cbn [is_trigger_write] in E.
  apply andb_true_iff in E. destruct E as [E Ed].
  apply andb_true_iff in E. destruct E as [E Er].
  apply andb_true_iff in E. destruct E as [Eb Ea].
  apply Z.eqb_eq in Eb, Ea, Er. apply bytes_Equal_spec in Ed.
  subst. reflexivity.
Qed.

Lemma nack_trigger_agrees (response : list byte) (before : trace) (c : call) :
  ~ best_effort c ->
  write_result (Sim.chip response) (before ++ [c])
  = write_result (SimNack.nack_trigger response) (before ++ [c]).
Proof.
  intros Hnb. cbn [write_result Sim.chip SimNack.nack_trigger].
  rewrite last_last, (is_trigger_write_false c Hnb). reflexivity.
Qed.

Lemma ExecuteCmd_transport_errors_witness :
  let bus := SimNack.nack_trigger Sim.ok_frame in
  let frame := command_frame x77 x3b (x00, x00) [] in
  reply_error bus [command_write frame; Delay_call CmdMaxExecutionTime]
    trigger_write = Some (TransportError "write error")
  /\ ExecuteCmd (Sim.chip Sim.ok_frame) x77 x3b (x00, x00) [] false []
     = ( Returns ([x00], None),
         [command_write frame; Delay_call CmdMaxExecutionTime;
          trigger_write; length_read; payload_read x04] )
  /\ ExecuteCmd bus x77 x3b (x00, x00) [] false []
     = ( Returns ([x00], None),
         [command_write frame; Delay_call CmdMaxExecutionTime;
          trigger_write; length_read; payload_read x04] ).
Proof.
  cbv zeta. split; [reflexivity|]. split; [|reflexivity].
  refine (proj2 (ExecuteCmd_transport_errors
                   (SimNack.nack_trigger Sim.ok_frame) x77 x3b (x00, x00) []
                   false [] _ _ eq_refl)
            (Sim.chip Sim.ok_frame) (fun tr => eq_refl)
            (nack_trigger_agrees Sim.ok_frame)).
Defined.

(** C3, counterexample. On a bus that answers the result-trigger write to
    register 0 with an error, the exchange goes on and returns the payload
    with no error: that error is dropped as well. *)
Lemma ExecuteCmd_trigger_error_dropped :
  let bus := Sim.chip_nack0 [x04; x00; x03; x40] in
  let frame := command_frame x77 x3b (x00, x00) [] in
  let r := ExecuteCmd bus x77 x3b (x00, x00) [] false [] in
  snd r = [command_write frame; Delay_call CmdMaxExecutionTime;
           trigger_write; length_read; payload_read x04]
  /\ reply_error bus [command_write frame; Delay_call CmdMaxExecutionTime]
       trigger_write = Some (TransportError "write error")
  /\ fst r = Returns ([x00], None)
  /\ trigger_write <> wake_write
  /\ trigger_write <> sleep_write
  /\ trigger_write <> idle_write.
Proof. repeat split; try reflexivity; discriminate. Qed.

(** ** Properties of the command library *)

Lemma cmd_writes_app (a b : trace) :
  cmd_writes (a ++ b) = cmd_writes a ++ cmd_writes b.
Proof. apply flat_map_app. Qed.

Ltac settle_writes :=
  cbn [snd fst]; normalize_traces;
  try exact I;
  rewrite cmd_writes_app; f_equal;
  match goal with
  | |- context [command_frame ?o ?p ?q ?d] =>
      generalize (command_frame o p q d); intros; reflexivity
  end.

(** An [ExecuteCmd] that returns without error has written exactly one
    frame to the command register: the encoded command. *)
Lemma ExecuteCmd_cmd_writes (bus : transport) opcode param1 param2 data wake
    (t : trace) :
  match fst (ExecuteCmd bus opcode param1 param2 data wake t) with
  | Returns (_, None) =>
      cmd_writes (snd (ExecuteCmd bus opcode param1 param2 data wake t))
      = cmd_writes t ++ [command_frame opcode param1 param2 data]
  | _ => True
  end.
Proof.
  unfold ExecuteCmd. destruct wake.
  - unfold bind, defer. rewrite Wake_unfold. unfold wake_calls.
    case_read res e Ewake; [exact I|].
    destruct (verifyResponse res) as [[|d0 vdata] [ve|]] eqn:Ever.
    2, 4: rewrite exchange_unfold; cbv zeta;
      unfold Idle, bind, I2CWrite, ret; cbn [snd fst]; normalize_traces;
      (case_write e Ew; [exact I|]);
      (case_read rc e Er1; destruct rc as [|n rc]; try exact I);
      (case_read res2 e Er2; [exact I|]);
      destruct (verifyResponse res2) as [d2 [e2|]]; settle_writes.
    + exact I.
    + destruct (b2z d0 =? 17); exact I.
  - rewrite exchange_unfold. cbv zeta.
    (case_write e Ew; [exact I|]).
    (case_read rc e Er1; destruct rc as [|n rc]; try exact I).
    (case_read res2 e Er2; [exact I|]).
    destruct (verifyResponse res2) as [d2 [e2|]]; settle_writes.
Qed.

Lemma slice_in_range (s : list byte) (lo hi : nat) (t : trace) :
  (lo <= hi)%nat -> (hi <= len s)%nat ->
  slice s lo hi t = (Returns (firstn (hi - lo) (skipn lo s)), t).
Proof.
  intros H1 H2. unfold slice.
  apply Nat.leb_le in H1, H2. rewrite H1, H2. reflexivity.
Qed.

(** The slice handed to the i-th Update is the i-th 64-byte block; the
    bounds are in range for every pass of the loop. *)
Lemma sha_block_slice (msg : list byte) (i : nat) (t : trace) :
  ((i + 1) * 64 <= len msg)%nat ->
  slice msg (i * 0x40) ((i + 1) * 0x40) t = (Returns (sha_block msg i), t).
Proof.
  intros H. change 0x40%nat with 64%nat.
  rewrite slice_in_range by lia.
  unfold sha_block.
  replace ((i + 1) * 64 - i * 64)%nat with 64%nat by lia.
  replace (i * 64)%nat with (64 * i)%nat by lia.
  reflexivity.
Qed.

(** A run of the Update loop that ends without error has written one
    Update frame per pass, for the blocks [i], [i+1], ... in order. *)
Lemma sha_update_loop_writes (bus : transport) (msg : list byte)
    (passes i : nat) (t : trace) :
  ((i + passes) * 64 <= len msg)%nat ->
  match fst (sha_update_loop bus passes i msg t) with
  | Returns None =>
      cmd_writes (snd (sha_update_loop bus passes i msg t))
      = cmd_writes t
        ++ map (fun j => encode (sha_update (sha_block msg j))) (seq i passes)
  | _ => True
  end.
Proof.
  revert i t; induction passes as [|passes IH]; intros i t Hlen.
  - cbn. rewrite app_nil_r. reflexivity.
  - cbn [sha_update_loop]. unfold bind.
    rewrite sha_block_slice by lia.
    pose proof (ExecuteCmd_cmd_writes bus (Cmd "SHA256")
                  (ShaMode "SHA_MODE_SHA256_UPDATE") (x40, x00)
                  (sha_block msg i) true t) as Hw.
    destruct (ExecuteCmd bus _ _ _ _ true t) as [[[d [e|]]|] t1];
      cbn [fst snd] in *; try exact I.
    specialize (IH (S i) t1). 
    destruct (sha_update_loop bus passes (S i) msg t1) as [[[e|]|] t2];
      cbn [fst snd] in *; try exact I.
    rewrite IH by lia. rewrite Hw, <- app_assoc. reflexivity.
Qed.

(** A [SHA256] call that returns without error has written the frames of
    the Start, Update and End commands of its message, in that order. *)
Lemma SHA256_cmd_writes (bus : transport) (sfmt msg : string)
    (msg_bytes : list byte) (t : trace) :
  sha_message sfmt msg = (msg_bytes, None) ->
  match fst (SHA256 bus sfmt msg t) with
  | Returns (_, None) =>
      cmd_writes (snd (SHA256 bus sfmt msg t))
      = cmd_writes t ++ map encode (sha_commands msg_bytes)
  | _ => True
  end.
Proof.
  intros Hmsg. unfold SHA256, bind.
  pose proof (ExecuteCmd_cmd_writes bus (Cmd "SHA256")
                (ShaMode "SHA_MODE_SHA256_START") (x00, x00) [] true t) as H0.
  destruct (ExecuteCmd bus _ _ _ [] true t) as [[[d0 [e0|]]|] t0];
    cbn [fst snd] in *; try exact I.
  rewrite Hmsg.
  set (n := len msg_bytes).
  pose proof (Nat.Div0.mul_div_le n 64) as Hdiv.
  pose proof (sha_update_loop_writes bus msg_bytes (n / 64) 0 t0) as H1.
  destruct (sha_update_loop bus (n / 64) 0 msg_bytes t0) as [[[e1|]|] t1];
    cbn [fst snd] in *; try exact I.
  rewrite slice_in_range by (fold n; lia).
  set (tail := firstn _ _).
  set (p2 := (z2b _, x00)).
  pose proof (ExecuteCmd_cmd_writes bus (Cmd "SHA256")
                (ShaMode "SHA_MODE_SHA256_END") p2 tail true t1) as H2.
  destruct (ExecuteCmd bus _ _ p2 tail true t1) as [[[d2 [e2|]]|] t2];
    cbn [fst snd] in *; try exact I.
  unfold Sleep, bind, I2CWrite, ret. cbn [fst snd].
  rewrite cmd_writes_app, H2, H1, H0 by (fold n; lia).
  change (cmd_writes [_]) with (@nil (list byte)). rewrite app_nil_r.
  unfold sha_commands. fold n. rewrite !map_app, <- !app_assoc.
  cbn [map app]. rewrite map_map.
  do 3 f_equal.
  unfold encode, sha_end. cbn [cmd_opcode cmd_param1 cmd_param2 cmd_data].
  assert (Htail : tail = skipn (64 * (n / 64)) msg_bytes).
  { unfold tail. rewrite (Nat.mul_comm (n / 64) 64).
    apply firstn_all2. rewrite length_skipn. fold n. lia. }
  assert (Hp2 : p2 = (z2b (Z.of_nat (n mod 64)), x00)).
  { unfold p2. do 2 f_equal. fold n.
    pose proof (Nat.div_mod_eq n 64). lia. }
  rewrite Htail, Hp2. reflexivity.
Qed.

Lemma sha_block_length (msg : list byte) (i : nat) :
  (i < len msg / 64)%nat -> len (sha_block msg i) = 64%nat.
Proof.
  intros H. unfold sha_block.
  pose proof (Nat.Div0.mul_div_le (len msg) 64).
  rewrite length_firstn, length_skipn. lia.
Qed.

Lemma sha_trailing_length (msg : list byte) :
  len (skipn (64 * (len msg / 64)) msg) = (len msg mod 64)%nat.
Proof.
  rewrite length_skipn. pose proof (Nat.div_mod_eq (len msg) 64). lia.
Qed.

Lemma sha_commands_nth (msg : list byte) (i : nat) :
  (i < len msg / 64)%nat ->
  nth (S i) (sha_commands msg) sha_start = sha_update (sha_block msg i).
Proof.
  intros H. unfold sha_commands. cbn [app nth].
  rewrite app_nth1 by (rewrite length_map, length_seq; exact H).
  rewrite (nth_indep _ sha_start (sha_update (sha_block msg 0)))
    by (rewrite length_map, length_seq; exact H).
  rewrite (map_nth (fun j => sha_update (sha_block msg j))).
  rewrite seq_nth by exact H. reflexivity.
Qed.

Lemma sha_commands_64 (msg : list byte) :
  len msg = 64%nat ->
  sha_commands msg = [sha_start; sha_update msg; sha_end 0 []].
Proof.
  intros H. unfold sha_commands, sha_block. rewrite H.
  change (64 / 64)%nat with 1%nat. change (64 mod 64)%nat with 0%nat.
  cbn [seq map app].
  change (64 * 0)%nat with 0%nat. change (64 * 1)%nat with 64%nat.
  rewrite skipn_O, firstn_all2 by lia. rewrite skipn_all2 by lia.
  reflexivity.
Qed.

Lemma sha_commands_130 (msg : list byte) :
  len msg = 130%nat ->
  sha_commands msg =
  [ sha_start; sha_update (firstn 64 msg);
    sha_update (firstn 64 (skipn 64 msg)); sha_end 2 (skipn 128 msg) ].
Proof.
  intros H. unfold sha_commands, sha_block. rewrite H.
  change (130 / 64)%nat with 2%nat. change (130 mod 64)%nat with 2%nat.
  reflexivity.
Qed.

(** C8. For every message of n bytes, a [SHA256] call that runs to its end
    has issued one Start command, then exactly n/64 Update commands of
    which the i-th carries the 64 message bytes from offset 64*i, then one
    End command carrying the n mod 64 trailing bytes with that count as
    param2. A 64-byte message gives one Update with the whole message and
    an End without data; a 130-byte message gives two Updates (bytes 0-63
    and 64-127) and an End with the last 2 bytes and param2 = 2. *)
Theorem SHA256_command_sequence (bus : transport) (sfmt msg : string)
    (msg_bytes : list byte) (t : trace) (res : string) (t' : trace) :
  sha_message sfmt msg = (msg_bytes, None) ->
  SHA256 bus sfmt msg t = (Returns (res, None), t') ->
  let n := len msg_bytes in
  let cmds := sha_commands msg_bytes in
  let trailing := skipn (64 * (n / 64)) msg_bytes in
  cmd_writes t' = cmd_writes t ++ map encode cmds
  /\ len cmds = (n / 64 + 2)%nat
  /\ nth 0 cmds sha_start = sha_start
  /\ (forall i, (i < n / 64)%nat ->
        nth (S i) cmds sha_start = sha_update (sha_block msg_bytes i)
        /\ len (sha_block msg_bytes i) = 64%nat)
  /\ last cmds sha_start = sha_end (n mod 64) trailing
  /\ len trailing = (n mod 64)%nat
  /\ (n = 64%nat ->
      cmds = [sha_start; sha_update msg_bytes; sha_end 0 []])
  /\ (n = 130%nat ->
      cmds = [ sha_start; sha_update (firstn 64 msg_bytes);
               sha_update (firstn 64 (skipn 64 msg_bytes));
               sha_end 2 (skipn 128 msg_bytes) ]).
Proof.
  intros Hmsg Hrun. cbv zeta.
  pose proof (SHA256_cmd_writes bus sfmt msg msg_bytes t Hmsg) as H.
  rewrite Hrun in H. cbn [fst snd] in H.
  split; [exact H|].
  split.
  { unfold sha_commands. cbn [app len].
    rewrite length_app, length_map, length_seq. cbn [len]. lia. }
  split; [reflexivity|].
  split.
  { intros i Hi. split; [apply sha_commands_nth | apply sha_block_length];
      exact Hi. }
  split.
  { unfold sha_commands.
    rewrite app_assoc. apply last_last. }
  split; [apply sha_trailing_length|].
  split; [apply sha_commands_64 | apply sha_commands_130].
Qed.

Lemma SHA256_command_sequence_witness :
  cmd_writes (snd (SHA256 (Sim.chip Sim.ok_frame) "str" Sim.text130 []))
  = map encode
      [ sha_start; sha_update (repeat "a"%byte 64);
        sha_update (repeat "a"%byte 64); sha_end 2 (repeat "a"%byte 2) ].
Proof.
  assert (E : { r : string & { t' : trace &
                SHA256 (Sim.chip Sim.ok_frame) "str" Sim.text130 []
                = (Returns (r, None), t') } }).
  { eexists. eexists. vm_compute. reflexivity. }
  destruct E as [r [t' E]].
  rewrite E. cbn [snd].
  exact (proj1 (SHA256_command_sequence (Sim.chip Sim.ok_frame) "str"
                  Sim.text130 (repeat "a"%byte 130) [] r t' eq_refl E)).
Defined.

Lemma sha_message_unrecognized (sfmt msg : string) :
  (sfmt <> "hex"%string /\ sfmt <> "str"%string)
  \/ (sfmt = "hex"%string /\ msg = EmptyString) ->
  sha_message sfmt msg = ([], None).
Proof.
  unfold sha_message. intros [[Hh Hs] | [-> ->]]; [|reflexivity].
  apply String.eqb_neq in Hh, Hs. rewrite Hh, Hs. reflexivity.
Qed.

(** C10. For every [SHA256] call whose format is neither "hex" nor "str",
    or is "hex" with an empty message, the message is silently treated as
    empty. On every bus the call is the digest of the empty message: it
    executes Start, then no Update, then End carrying zero bytes with
    param2 = 0, and it returns the digest whenever both exchanges succeed;
    the only errors it can return are those of the two exchanges, none is
    raised for the format. A call that runs to its end has written the
    Start frame and that End frame to the command register, and nothing
    else. *)
Theorem SHA256_unrecognized_format (bus : transport) (sfmt msg : string)
    (t : trace) :
  (sfmt <> "hex"%string /\ sfmt <> "str"%string)
  \/ (sfmt = "hex"%string /\ msg = EmptyString) ->
  sha_message sfmt msg = ([], None)
  /\ SHA256 bus sfmt msg t = empty_digest bus t
  /\ (forall d0 digest t1 t2,
        ExecuteCmd bus x47 x00 (x00, x00) [] true t = (Returns (d0, None), t1) ->
        ExecuteCmd bus x47 x02 (x00, x00) [] true t1
        = (Returns (digest, None), t2) ->
        SHA256 bus sfmt msg t
        = (Returns (("SHA256 HexDigest: " ++ sprintf_x digest)%string, None),
           t2 ++ [sleep_write])
        /\ cmd_writes (t2 ++ [sleep_write])
           = cmd_writes t ++ map encode [sha_start; sha_end 0 []])
  /\ cmd_param2 (sha_end 0 []) = (x00, x00)
  /\ cmd_data (sha_end 0 []) = [].
Proof.
  intros Hfmt. pose proof (sha_message_unrecognized sfmt msg Hfmt) as Hmsg.
  assert (Hrun : SHA256 bus sfmt msg t = empty_digest bus t).
  { unfold SHA256, empty_digest, bind. rewrite Hmsg.
    change (Cmd "SHA256") with x47.
    change (ShaMode "SHA_MODE_SHA256_START") with x00.
    change (ShaMode "SHA_MODE_SHA256_END") with x02.
    destruct (ExecuteCmd bus x47 x00 (x00, x00) [] true t)
      as [[[d0 [e0|]]|] t1]; try reflexivity.
    cbn [Datatypes.length Nat.div Nat.divmod fst sha_update_loop].
    unfold ret at 1. unfold slice. cbn [Nat.mul Nat.leb andb Nat.sub
      Datatypes.length skipn firstn].
    unfold ret at 1.
    change (z2b (Z.of_nat 0 - Z.of_nat 0 * 64)) with x00.
    destruct (ExecuteCmd bus x47 x02 (x00, x00) [] true t1)
      as [[[d2 [e2|]]|] t2]; reflexivity. }
  split; [exact Hmsg|]. split; [exact Hrun|]. split; [|split; reflexivity].
  intros d0 digest t1 t2 E1 E2.
  assert (Hres : SHA256 bus sfmt msg t
                 = (Returns (("SHA256 HexDigest: " ++ sprintf_x digest)%string,
                             None), t2 ++ [sleep_write])).
  { rewrite Hrun. unfold empty_digest. rewrite E1, E2. reflexivity. }
  split; [exact Hres|].
  pose proof (SHA256_cmd_writes bus sfmt msg [] t Hmsg) as H.
  rewrite Hres in H. exact H.
Qed.

Lemma SHA256_unrecognized_format_witness :
  SHA256 (Sim.chip Sim.ok_frame) "base64" "aGVsbG8=" []
  = (Returns ("SHA256 HexDigest: 00"%string, None),
     sessions [sha_start; sha_end 0 []] [x04; x04] ++ [sleep_write])
  /\ cmd_writes (sessions [sha_start; sha_end 0 []] [x04; x04]
                 ++ [sleep_write])
     = [ [x07; x47; x00; x00; x00; x2e; x85];
         [x07; x47; x02; x00; x00; x2d; x00] ].
Proof.
  split; [|reflexivity].
  refine (eq_trans
            (proj1 (proj2 (SHA256_unrecognized_format
                             (Sim.chip Sim.ok_frame) "base64" "aGVsbG8=" [] _)))
            _).
  - left. split; discriminate.
  - reflexivity.
Defined.

(** ** Self-test *)

Lemma append_assoc (a b c : string) :
  ((a ++ b) ++ c = a ++ (b ++ c))%string.
Proof. induction a as [|x a IH]; cbn; [reflexivity | rewrite IH; reflexivity]. Qed.

(** The loop of [SelfTest] in isolation: for a result byte that reaches it,
    the summary is the concatenation, in visiting order, of one entry per
    capability, FAIL when the bit of the capability is set in the byte and
    PASS when it is clear. *)
Lemma SelfTest_loop_report (result : byte) (order : list (string * byte))
    (acc : string) :
  fold_left (report_entry result) order acc
  = (acc ++ String.concat EmptyString (map (verdict result) order))%string.
Proof.
  revert acc; induction order as [|[k v] order IH]; intros acc.
  - cbn. induction acc as [|x acc IHa]; cbn; [|rewrite <- IHa]; reflexivity.
  - cbn [fold_left map]. rewrite IH.
    assert (Hc : forall x l,
               String.concat EmptyString (x :: l)
               = (x ++ String.concat EmptyString l)%string).
    { intros x [|y l]; cbn [String.concat].
      - induction x as [|c x IHx]; cbn; [|rewrite <- IHx]; reflexivity.
      - reflexivity. }
    rewrite Hc, <- append_assoc. f_equal.
    unfold report_entry, verdict. cbn [fst snd].
    destruct (negb _); reflexivity.
Qed.

(** Whatever order [range Test] takes, every capability of [Test] has its
    entry in the summary. *)
Lemma SelfTest_loop_covers (result : byte) (order : list (string * byte)) :
  Permutation order Test ->
  forall kv, In kv Test ->
    In (verdict result kv) (map (verdict result) order).
Proof.
  intros Hperm kv Hin. apply in_map.
  apply (Permutation_in kv (Permutation_sym Hperm) Hin).
Qed.

(** On the result byte 0x00 the self-test runs to its end and reports all
    six capabilities as PASS. *)
Lemma SelfTest_zero_all_pass :
  fst (SelfTest (Sim.chip Sim.ok_frame) Test [])
  = Returns
      ("SHA:PASS AES:PASS ECDH:PASS ECDSA Sign:PASS ECDSA Verify:PASS RNG DRBG:PASS "%string,
       None).
Proof. reflexivity. Qed.

(** What [SelfTest] does with every result byte the chip can deliver in a
    well-formed 4-byte response: the byte first goes through the status
    check of [verifyResponse], and only the bytes that check lets through
    are reported on. *)
Lemma SelfTest_result_byte (b : byte) (order : list (string * byte)) :
  fst (SelfTest (Sim.chip ([x04; b] ++ crc16 [x04; b])) order [])
  = match status_error b with
    | Some e => Returns (EmptyString, Some e)
    | None => Returns (fold_left (report_entry b) order EmptyString, None)
    end.
Proof. destruct b; vm_compute; reflexivity. Qed.

(** C9, the code at the failing input. The chip answers the SelfTest
    command with the result byte 0x20 (SHA failed) in the well-formed
    response [04 20 18 c0]: whatever the order in which the capabilities
    are visited, [SelfTest] returns the error for an unknown status code
    and an empty report, instead of SHA:FAIL and five PASS entries. *)
Theorem SelfTest_sha_failure_rejected (order : list (string * byte)) :
  crc16 [x04; x20] = [x18; xc0]
  /\ fst (SelfTest (Sim.chip [x04; x20; x18; xc0]) order [])
     = Returns (EmptyString, Some (UnknownStatus x20))
  /\ fold_left (report_entry x20) Test EmptyString
     = "SHA:FAIL AES:PASS ECDH:PASS ECDSA Sign:PASS ECDSA Verify:PASS RNG DRBG:PASS "%string.
Proof. repeat split. Qed.

(** * Further properties of the packet codec *)

Lemma response_data_head (res : list byte) :
  (4 <= len res)%nat -> nth 0 (response_data res) x00 = nth 1 res x00.
Proof.
  intros H. unfold response_data.
  destruct res as [|c [|s [|a [|b rest]]]]; cbn [Datatypes.length] in H;
    try lia.
  cbn [Datatypes.length].
  replace (S (S (S (S (len rest)))) - 2)%nat with (S (S (len rest)))
    by lia.
  reflexivity.
Qed.

Lemma verifyResponse_short (res : list byte) :
  (len res < 4)%nat -> verifyResponse res = ([], Some MalformedFrame).
Proof.
  intros H. unfold verifyResponse, ResponseMinLen.
  replace (Z.of_nat (len res) <? 4) with true
    by (symmetry; apply Z.ltb_lt; lia).
  reflexivity.
Qed.

Lemma verifyResponse_bad_checksum (res : list byte) :
  (4 <= len res)%nat ->
  crc16 (firstn (len res - 2) res) <> skipn (len res - 2) res ->
  verifyResponse res = (response_data res, Some ChecksumMismatch).
Proof.
  intros Hlen Hcrc. unfold verifyResponse, ResponseMinLen, response_data.
  replace (Z.of_nat (len res) <? 4) with false
    by (symmetry; apply Z.ltb_ge; lia).
  destruct (bytes_Equal _ _) eqn:E; [|reflexivity].
  apply bytes_Equal_spec in E. contradiction.
Qed.

(** [verifyResponse] returns without error exactly for the buffers that
    are at least 4 bytes long, carry the checksum of everything before
    their last two bytes and, when their count byte is 4, hold a status
    byte that is Success or informational; what it then returns is the
    bytes between the count byte and the checksum. *)
Theorem verifyResponse_accepts_iff (res : list byte) :
  snd (verifyResponse res) = None
  <-> passes_checks res
      /\ (nth 0 res x00 = x04 -> status_error (nth 1 res x00) = None).
Proof.
  split.
  - intros H.
    destruct (Nat.lt_ge_cases (len res) 4) as [Hs|Hl].
    { rewrite verifyResponse_short in H by exact Hs. discriminate H. }
    destruct (list_eq_dec Byte.byte_eq_dec
                (crc16 (firstn (len res - 2) res)) (skipn (len res - 2) res))
      as [Hc|Hc].
    2:{ rewrite verifyResponse_bad_checksum in H by assumption.
        discriminate H. }
    assert (Hp : passes_checks res) by (split; assumption).
    split; [exact Hp|]. intros Hcount.
    rewrite (verifyResponse_checked res Hp), Hcount in H.
    rewrite <- response_data_head by exact Hl. exact H.
  - intros [Hp Hs]. rewrite (verifyResponse_checked res Hp). cbn [snd].
    destruct (b2z (nth 0 res x00) =? 4) eqn:E; [|reflexivity].
    apply b2z_eqb in E; [|lia].
    rewrite response_data_head by apply Hp. exact (Hs E).
Qed.

(** A buffer whose last two bytes are not the checksum of the bytes before
    them is rejected with [ChecksumMismatch], whatever its count and
    status bytes say; the inner bytes are still handed back. *)
Theorem verifyResponse_altered_checksum (prefix trailer : list byte) :
  (2 <= len prefix)%nat ->
  len trailer = 2%nat ->
  trailer <> crc16 prefix ->
  verifyResponse (prefix ++ trailer) = (tl prefix, Some ChecksumMismatch).
Proof.
  intros Hp Ht Hne.
  assert (Hl : (len (prefix ++ trailer) - 2 = len prefix)%nat)
    by (rewrite length_app; lia).
  rewrite verifyResponse_bad_checksum.
  - unfold response_data. rewrite Hl, firstn_app, Nat.sub_diag, firstn_all.
    cbn [firstn]. rewrite app_nil_r.
    destruct prefix; reflexivity.
  - rewrite length_app; lia.
  - rewrite Hl, firstn_app, Nat.sub_diag, firstn_all, skipn_app, Nat.sub_diag,
      skipn_all.
    cbn [firstn skipn app]. rewrite app_nil_r. congruence.
Qed.

Lemma verifyResponse_altered_checksum_witness :
  verifyResponse ([x04; x00] ++ [x03; x41])
  = ([x00], Some ChecksumMismatch).
Proof.
  apply (verifyResponse_altered_checksum [x04; x00] [x03; x41]).
  - simpl; lia.
  - reflexivity.
  - discriminate.
Defined.


(** A command frame up to 248 data bytes, read back as a response, passes
    the length and checksum checks of [verifyResponse] and comes back as
    opcode, param1, param2 and data: the encoder and the verifier agree on
    the layout and on the checksum. *)
Theorem command_frame_verifies (opcode param1 : byte) (param2 : byte * byte)
    (data : list byte) :
  (len data <= 248)%nat ->
  verifyResponse (command_frame opcode param1 param2 data)
  = ([opcode; param1; fst param2; snd param2] ++ data, None).
Proof.
  intros Hlen. rewrite command_frame_fields. cbv zeta.
  set (prefix := _ ++ data).
  assert (Hl : (len (prefix ++ crc16 prefix) - 2 = len prefix)%nat).
  { rewrite length_app, crc16_length. lia. }
  assert (Hp : passes_checks (prefix ++ crc16 prefix)).
  { split.
    - rewrite length_app, crc16_length. unfold prefix. cbn [len app]. lia.
    - rewrite Hl, firstn_app, Nat.sub_diag, firstn_all, skipn_app,
        Nat.sub_diag, skipn_all.
      cbn [firstn skipn app]. rewrite app_nil_r. reflexivity. }
  rewrite (verifyResponse_checked _ Hp).
  unfold response_data. rewrite Hl, firstn_app, Nat.sub_diag, firstn_all.
  cbn [firstn]. rewrite app_nil_r.
  replace (b2z (nth 0 (prefix ++ crc16 prefix) x00) =? 4) with false.
  - reflexivity.
  - symmetry. apply Z.eqb_neq. unfold prefix. cbn [app nth].
    rewrite b2z_z2b, Z.mod_small by lia. lia.
Qed.

Lemma command_frame_verifies_witness :
  verifyResponse (command_frame x47 x02 (x02, x00) [x61; x62])
  = ([x47; x02; x02; x00; x61; x62], None).
Proof.
  apply (command_frame_verifies x47 x02 (x02, x00) [x61; x62]).
  simpl; lia.
Defined.

(** Two commands with the same frame are the same command: the frame
    determines opcode, param1, param2 and data. *)
Theorem command_frame_injective
    (o o' p p' : byte) (q q' : byte * byte) (d d' : list byte) :
  command_frame o p q d = command_frame o' p' q' d' ->
  o = o' /\ p = p' /\ q = q' /\ d = d'.
Proof.
  rewrite !command_frame_fields. cbv zeta. cbn [app]. intros H.
  injection H as _ Ho Hp Hq1 Hq2 Hrest.
  assert (Hlen : len d = len d').
  { apply (f_equal (@Datatypes.length byte)) in Hrest.
    rewrite !length_app, !crc16_length in Hrest. lia. }
  assert (Hd : d = d').
  { apply (f_equal (firstn (len d))) in Hrest.
    rewrite firstn_app, Nat.sub_diag, firstn_all in Hrest.
    rewrite Hlen, firstn_app, Nat.sub_diag, firstn_all in Hrest.
    cbn [firstn] in Hrest. rewrite !app_nil_r in Hrest. exact Hrest. }
  repeat split; try assumption.
  destruct q, q'; cbn [fst snd] in *; congruence.
Qed.

Lemma command_frame_injective_witness :
  x47 = x47 /\ x01 = x01 /\ (x40, x00) = (x40, x00) /\ [x61] = [x61].
Proof.
  exact (command_frame_injective x47 x47 x01 x01 (x40, x00) (x40, x00)
           [x61] [x61] eq_refl).
Defined.

(** * Further properties of the command executor *)

Lemma verifyResponse_none (res data : list byte) :
  verifyResponse res = (data, None) ->
  passes_checks res /\ data = response_data res.
Proof.
  intros H.
  destruct (Nat.lt_ge_cases (len res) 4) as [Hs|Hl].
  { rewrite verifyResponse_short in H by exact Hs. discriminate H. }
  destruct (list_eq_dec Byte.byte_eq_dec
              (crc16 (firstn (len res - 2) res)) (skipn (len res - 2) res))
    as [Hc|Hc].
  2:{ rewrite verifyResponse_bad_checksum in H by assumption.
      discriminate H. }
  assert (Hp : passes_checks res) by (split; assumption).
  split; [exact Hp|].
  rewrite (verifyResponse_checked res Hp) in H. congruence.
Qed.

(** The calls of an exchange that reaches its payload read. *)
Lemma exchange_calls_app (t : trace) (frame : list byte) (n : byte) :
  t ++ [command_write frame; Delay_call CmdMaxExecutionTime; trigger_write;
        length_read; payload_read n]
  = (t ++ [command_write frame; Delay_call CmdMaxExecutionTime;
           trigger_write; length_read]) ++ [payload_read n].
Proof. rewrite <- app_assoc. reflexivity. Qed.

Ltac no_run :=
  let H := fresh "H" in
  intros H; unfold ret, panic in H; cbn [fst snd] in H; discriminate H.

(** The shape of a session-wrapped [ExecuteCmd] that returns without error. *)
Lemma ExecuteCmd_success_shape (bus : transport) opcode param1 param2 data
    (t : trace) (d : list byte) (t' : trace) :
  ExecuteCmd bus opcode param1 param2 data true t = (Returns (d, None), t') ->
  exists (n : byte) (res : list byte),
    let calls :=
      wake_calls
      ++ [command_write (command_frame opcode param1 param2 data);
          Delay_call CmdMaxExecutionTime; trigger_write; length_read;
          payload_read n] in
    t' = t ++ calls ++ [idle_write]
    /\ nth_error (fst (read_result bus
                         (t ++ removelast calls))) 0 = Some n
    /\ read_result bus (t ++ calls) = (res, None)
    /\ passes_checks res
    /\ d = response_data res.
Proof.
  unfold ExecuteCmd, bind, defer. rewrite Wake_unfold. unfold wake_calls.
  case_read res0 e Ewake; [no_run|].
  destruct (verifyResponse res0) as [[|d0 vdata] [ve|]] eqn:Ever.
  1: no_run.
  2: destruct (b2z d0 =? 17); no_run.
  all: rewrite exchange_unfold; cbv zeta;
    unfold Idle, bind, I2CWrite, ret; cbn [snd fst]; normalize_traces;
    (case_write e Ew; [no_run|]);
    (case_read rc e Er1; destruct rc as [|n rc]; try no_run);
    (case_read res2 e Er2; [no_run|]);
    destruct (verifyResponse res2) as [d2 [e2|]] eqn:Ev; [no_run|];
    cbn [snd fst]; normalize_traces;
    intros H; inversion H; subst;
    exists n, res2; cbv zeta; cbn [removelast app];
    rewrite Er1, Er2;
    destruct (verifyResponse_none _ _ Ev) as [Hp Hd];
    repeat split; solve [ reflexivity | assumption | apply Hp ].
Qed.


(** A session-wrapped [ExecuteCmd] that returns without error has made
    exactly these bus calls, in this order: the three calls of the wake-up,
    the command-frame write, the settle delay, the result-trigger write,
    the 1-byte length read, one payload read of as many bytes as the length
    read announced, and the deferred Idle write. The data it returns are
    the inner bytes of the answer to that payload read, and that answer
    passed the length and checksum checks. *)
Theorem ExecuteCmd_success_calls (bus : transport) opcode param1 param2 data
    (t : trace) (d : list byte) (t' : trace) :
  ExecuteCmd bus opcode param1 param2 data true t = (Returns (d, None), t') ->
  exists (n : byte) (res : list byte),
    let calls :=
      wake_calls
      ++ [command_write (command_frame opcode param1 param2 data);
          Delay_call CmdMaxExecutionTime; trigger_write; length_read;
          payload_read n] in
    t' = t ++ calls ++ [idle_write]
    /\ nth_error (fst (read_result bus
                         (t ++ removelast calls))) 0 = Some n
    /\ read_result bus (t ++ calls) = (res, None)
    /\ passes_checks res
    /\ d = response_data res.
Proof. apply ExecuteCmd_success_shape. Qed.

Lemma ExecuteCmd_success_calls_witness :
  exists (n : byte) (res : list byte),
    snd (ExecuteCmd (Sim.chip Sim.ok_frame) x77 x3b (x00, x00) [] true [])
    = wake_calls
      ++ [command_write (command_frame x77 x3b (x00, x00) []);
          Delay_call CmdMaxExecutionTime; trigger_write; length_read;
          payload_read n]
      ++ [idle_write]
    /\ passes_checks res
    /\ [x00] = response_data res.
Proof.
  destruct (ExecuteCmd_success_calls (Sim.chip Sim.ok_frame) x77 x3b
              (x00, x00) [] [] [x00]
              (snd (ExecuteCmd (Sim.chip Sim.ok_frame) x77 x3b (x00, x00)
                      [] true []))
              eq_refl)
    as [n [res [Ht [_ [_ [Hp Hd]]]]]].
  exists n, res. rewrite Ht. cbn [app]. rewrite <- app_assoc.
  split; [reflexivity | split; assumption].
Defined.

Lemma last_app_cons {A} (t : list A) (c : A) (l : list A) (d : A) :
  last (t ++ c :: l) d = last (c :: l) d.
Proof.
  induction t as [|x t IH]; [reflexivity|].
  cbn [app]. rewrite <- IH. destruct (t ++ c :: l) eqn:E; [|reflexivity].
  destruct t; discriminate E.
Qed.

Ltac settle_session :=
  cbn [snd fst]; normalize_traces;
  repeat split;
  first [ reflexivity
        | rewrite last_app_cons; reflexivity
        | eexists; cbn [app]; reflexivity ].

(** The session of a wrapped [ExecuteCmd]. When the wake-up does not
    succeed, the call ends there: nothing but the three wake-up calls
    reaches the bus, no command frame is written and no Idle follows. When
    the wake-up succeeds, the Idle write is the last bus call on every
    path out of the exchange: success, transport error, verification
    error and panic alike. *)
Theorem ExecuteCmd_session (bus : transport) opcode param1 param2 data
    (t : trace) :
  let r := ExecuteCmd bus opcode param1 param2 data true t in
  match fst (Wake bus t) with
  | Returns None =>
      last (snd r) (Delay_call 0) = idle_write
      /\ exists rest, snd r = t ++ wake_calls ++ rest
  | Returns (Some e) => r = (Returns ([], Some e), t ++ wake_calls)
  | Panics => r = (Panics, t ++ wake_calls)
  end.
Proof.
  cbv zeta. unfold ExecuteCmd, bind, defer. rewrite Wake_unfold.
  unfold wake_calls. cbn [fst].
  case_read res0 e Ewake; [reflexivity|].
  destruct (verifyResponse res0) as [[|d0 vdata] [ve|]] eqn:Ever.
  1: reflexivity.
  2: destruct (b2z d0 =? 17); reflexivity.
  all: rewrite exchange_unfold; cbv zeta;
    unfold Idle, bind, I2CWrite, ret; cbn [snd fst]; normalize_traces;
    (case_write e Ew; [settle_session|]);
    (case_read rc e Er1; destruct rc as [|n rc]; try settle_session);
    (case_read res2 e Er2; settle_session).
Qed.

(** No retries: whatever the transport answers and however the call ends,
    an [ExecuteCmd] writes its command frame to the command register at
    most once, and writes no other frame there. *)
Theorem ExecuteCmd_writes_at_most_once (bus : transport)
    opcode param1 param2 data wake (t : trace) :
  let t' := snd (ExecuteCmd bus opcode param1 param2 data wake t) in
  cmd_writes t' = cmd_writes t
  \/ cmd_writes t'
     = cmd_writes t ++ [command_frame opcode param1 param2 data].
Proof.
  cbv zeta. unfold ExecuteCmd. destruct wake.
  - unfold bind, defer. rewrite Wake_unfold. unfold wake_calls.
    assert (Hw : forall l, cmd_writes
                   (t ++ [I2CWrite_call I2CBus 0 1 [x00];
                          Delay_call CmdMaxExecutionTime;
                          I2CRead_call I2CBus I2CAddress 0 4]) = l ->
                 l = cmd_writes t).
    { intros l <-. rewrite cmd_writes_app. apply app_nil_r. }
    case_read res0 e Ewake; [left; apply Hw; reflexivity|].
    destruct (verifyResponse res0) as [[|d0 vdata] [ve|]] eqn:Ever.
    1: left; apply Hw; reflexivity.
    2: destruct (b2z d0 =? 17); left; apply Hw; reflexivity.
    all: rewrite exchange_unfold; cbv zeta;
      unfold Idle, bind, I2CWrite, ret; cbn [snd fst]; normalize_traces;
      (case_write e Ew; [right; settle_writes|]);
      (case_read rc e Er1; destruct rc as [|n rc];
         try (right; settle_writes));
      (case_read res2 e Er2; right; settle_writes).
  - rewrite exchange_unfold. cbv zeta.
    (case_write e Ew; [right; settle_writes|]).
    (case_read rc e Er1; destruct rc as [|n rc]; try (right; settle_writes)).
    case_read res2 e Er2; right; settle_writes.
Qed.

Lemma response_data_length (res : list byte) :
  (4 <= len res)%nat -> len (response_data res) = (len res - 3)%nat.
Proof.
  intros H. unfold response_data. rewrite length_skipn, length_firstn. lia.
Qed.

(** Where the executor panics. [Wake] indexes [data[0]] after a failed
    verification, so it panics exactly when the verifying read returns,
    without error, fewer than 4 bytes. The exchange indexes [resCount[0]],
    so an [ExecuteCmd] without session panics exactly when the command
    write is accepted and the length read returns, without error, no byte
    at all. *)
Theorem executor_panics_iff (bus : transport) opcode param1 param2 data
    (t : trace) :
  (fst (Wake bus t) = Panics
   <-> snd (read_result bus (t ++ wake_calls)) = None
       /\ (len (fst (read_result bus (t ++ wake_calls))) < 4)%nat)
  /\ (fst (ExecuteCmd bus opcode param1 param2 data false t) = Panics
      <-> let w := command_write (command_frame opcode param1 param2 data) in
          write_result bus (t ++ [w]) = None
          /\ read_result bus
               (t ++ [w; Delay_call CmdMaxExecutionTime; trigger_write;
                      length_read]) = ([], None)).
Proof.
  split.
  - rewrite Wake_unfold. cbn [fst].
    destruct (read_result bus (t ++ wake_calls)) as [res [e|]]; cbn [fst snd].
    { split; [discriminate | intros [H _]; discriminate H]. }
    destruct (Nat.lt_ge_cases (len res) 4) as [Hs|Hl].
    + rewrite verifyResponse_short by exact Hs. tauto.
    + pose proof (verifyResponse_data res Hl) as Hd.
      pose proof (response_data_length res Hl) as Hn.
      destruct (verifyResponse res) as [[|d0 vd] [ve|]]; cbn [fst] in Hd;
        try (rewrite <- Hd in Hn; cbn [Datatypes.length] in Hn; lia).
      * destruct (b2z d0 =? 17);
          (split; [discriminate | intros [_ H]; lia]).
      * split; [discriminate | intros [_ H]; lia].
  - unfold ExecuteCmd. rewrite exchange_unfold. cbv zeta.
    case_write e Ew.
    { cbn [fst]. split; [discriminate | intros [H _]; discriminate H]. }
    case_read rc e Er1; destruct rc as [|n rc]; cbn [fst].
    + split; [discriminate | intros [_ H]; discriminate H].
    + split; [discriminate | intros [_ H]; discriminate H].
    + split; [intros _; split; reflexivity | reflexivity].
    + case_read res2 e Er2; cbn [fst];
        (split; [discriminate | intros [_ H]; discriminate H]).
Qed.

(** * Further properties of the streaming hash digest *)

Lemma ExecuteCmd_success_session (bus : transport) opcode param1 param2 data
    (t : trace) (d : list byte) (t' : trace) :
  ExecuteCmd bus opcode param1 param2 data true t = (Returns (d, None), t') ->
  exists n,
    t' = t ++ session_calls (command_frame opcode param1 param2 data) n.
Proof.
  intros H.
  destruct (ExecuteCmd_success_shape _ _ _ _ _ _ _ _ H) as [n [res [Ht _]]].
  exists n. rewrite Ht. unfold session_calls.
  rewrite <- !app_assoc. reflexivity.
Qed.

Lemma sessions_cons (c : command) (cmds : list command) (n : byte)
    (ns : list byte) :
  sessions (c :: cmds) (n :: ns)
  = session_calls (encode c) n ++ sessions cmds ns.
Proof. reflexivity. Qed.

Lemma sessions_app (a b : list command) (x y : list byte) :
  len a = len x ->
  sessions (a ++ b) (x ++ y) = sessions a x ++ sessions b y.
Proof.
  revert x; induction a as [|c a IH]; intros [|n x] H; try discriminate H.
  - reflexivity.
  - cbn [app]. rewrite !sessions_cons, IH, app_assoc by (inversion H; auto).
    reflexivity.
Qed.

Lemma sha_update_loop_sessions (bus : transport) (msg : list byte)
    (passes i : nat) (t : trace) :
  ((i + passes) * 64 <= len msg)%nat ->
  match sha_update_loop bus passes i msg t with
  | (Returns None, t') =>
      exists ns,
        len ns = passes
        /\ t' = t ++ sessions
                       (map (fun j => sha_update (sha_block msg j))
                          (seq i passes)) ns
  | _ => True
  end.
Proof.
  revert i t; induction passes as [|passes IH]; intros i t Hlen.
  - cbn. exists []. rewrite app_nil_r. split; reflexivity.
  - cbn [sha_update_loop]. unfold bind.
    rewrite sha_block_slice by lia.
    destruct (ExecuteCmd bus _ _ _ _ true t) as [[[d [e|]]|] t1] eqn:E;
      try exact I.
    apply ExecuteCmd_success_session in E. destruct E as [n0 E].
    specialize (IH (S i) t1).
    destruct (sha_update_loop bus passes (S i) msg t1) as [[[e|]|] t2];
      try exact I.
    destruct IH as [ns [Hns Ht2]]; [lia|].
    exists (n0 :: ns). split; [cbn; lia|].
    rewrite Ht2, E, <- app_assoc. cbn [seq map]. rewrite sessions_cons.
    reflexivity.
Qed.

(** The whole bus traffic of a [SHA256] call that returns without error:
    one complete session (wake-up, command, idle) per command of the
    digest, in the order Start, Updates, End, followed by a single Sleep
    write as the last call. The device is thus woken and idled once per
    64-byte block and put to sleep once, after the End command. *)
Theorem SHA256_success_trace (bus : transport) (sfmt msg : string)
    (msg_bytes : list byte) (t : trace) (res : string) (t' : trace) :
  sha_message sfmt msg = (msg_bytes, None) ->
  SHA256 bus sfmt msg t = (Returns (res, None), t') ->
  exists ns,
    len ns = len (sha_commands msg_bytes)
    /\ t' = t ++ sessions (sha_commands msg_bytes) ns ++ [sleep_write].
Proof.
  intros Hmsg. unfold SHA256, bind.
  destruct (ExecuteCmd bus _ _ _ [] true t) as [[[d0 [e0|]]|] t0] eqn:E0;
    try no_run.
  apply ExecuteCmd_success_session in E0. destruct E0 as [n0 E0].
  rewrite Hmsg.
  set (n := len msg_bytes).
  pose proof (Nat.Div0.mul_div_le n 64) as Hdiv.
  pose proof (sha_update_loop_sessions bus msg_bytes (n / 64) 0 t0) as H1.
  destruct (sha_update_loop bus (n / 64) 0 msg_bytes t0) as [[[e1|]|] t1];
    try no_run.
  destruct H1 as [ns [Hns H1]]; [fold n; lia|].
  rewrite slice_in_range by (fold n; lia).
  set (tail := firstn _ _).
  set (p2 := (z2b _, x00)).
  destruct (ExecuteCmd bus _ _ p2 tail true t1) as [[[d2 [e2|]]|] t2] eqn:E2;
    try no_run.
  apply ExecuteCmd_success_session in E2. destruct E2 as [n2 E2].
  unfold Sleep, bind, I2CWrite, ret. cbn [fst snd].
  intros H. inversion H. subst res t'. clear H.
  assert (Htail : tail = skipn (64 * (n / 64)) msg_bytes).
  { unfold tail. rewrite (Nat.mul_comm (n / 64) 64).
    apply firstn_all2. rewrite length_skipn. fold n. lia. }
  assert (Hp2 : p2 = (z2b (Z.of_nat (n mod 64)), x00)).
  { unfold p2. do 2 f_equal. fold n.
    pose proof (Nat.div_mod_eq n 64). lia. }
  exists (n0 :: ns ++ [n2]). split.
  - unfold sha_commands. fold n. cbn [app Datatypes.length].
    rewrite !length_app, length_map, length_seq. cbn [Datatypes.length]. lia.
  - unfold sha_commands. fold n. cbn [app]. rewrite sessions_cons.
    rewrite sessions_app by (rewrite length_map, length_seq; auto).
    rewrite E2, H1, E0, <- !app_assoc. do 3 f_equal.
    rewrite Htail, Hp2. unfold sessions.
    cbn [combine map List.concat fst snd]. rewrite app_nil_r.
    reflexivity.
Qed.

Lemma SHA256_success_trace_witness :
  exists ns,
    len ns = 2%nat
    /\ snd (SHA256 (Sim.chip Sim.ok_frame) "str" "abc" [])
       = sessions (sha_commands [x61; x62; x63]) ns ++ [sleep_write].
Proof.
  assert (E : { r : string & { t' : trace &
                SHA256 (Sim.chip Sim.ok_frame) "str" "abc" []
                = (Returns (r, None), t') } }).
  { eexists. eexists. vm_compute. reflexivity. }
  destruct E as [r [t' E]].
  destruct (SHA256_success_trace (Sim.chip Sim.ok_frame) "str" "abc"
              [x61; x62; x63] [] r t' eq_refl E) as [ns [Hn Ht]].
  exists ns. split; [exact Hn|]. rewrite E. exact Ht.
Defined.

(** The message is decoded only after the Start command has been
    executed. When the hexadecimal message does not decode and the Start
    exchange succeeded, [SHA256] returns the decoding error with an empty
    result; the bus has seen the session of the Start command and nothing
    else: no Update, no End and no Sleep, so the device is left idle with
    a digest started. *)
Theorem SHA256_decode_failure (bus : transport) (sfmt msg : string)
    (partial : list byte) (e : error) (t : trace) (d : list byte)
    (t1 : trace) :
  sha_message sfmt msg = (partial, Some e) ->
  ExecuteCmd bus (Cmd "SHA256") (ShaMode "SHA_MODE_SHA256_START")
    (x00, x00) [] true t = (Returns (d, None), t1) ->
  SHA256 bus sfmt msg t = (Returns (EmptyString, Some e), t1)
  /\ cmd_writes t1 = cmd_writes t ++ [encode sha_start]
  /\ last t1 (Delay_call 0) = idle_write.
Proof.
  intros Hmsg Hstart. split; [|split].
  - unfold SHA256, bind. rewrite Hstart, Hmsg. reflexivity.
  - pose proof (ExecuteCmd_cmd_writes bus (Cmd "SHA256")
                  (ShaMode "SHA_MODE_SHA256_START") (x00, x00) [] true t) as H.
    rewrite Hstart in H. exact H.
  - apply ExecuteCmd_success_session in Hstart. destruct Hstart as [n ->].
    unfold session_calls, wake_calls. cbn [app].
    rewrite last_app_cons. reflexivity.
Qed.

Lemma SHA256_decode_failure_witness :
  fst (SHA256 (Sim.chip Sim.ok_frame) "hex" "6162zz" [])
  = Returns (EmptyString, Some (DecodeError "encoding/hex: invalid byte"))
  /\ cmd_writes (snd (SHA256 (Sim.chip Sim.ok_frame) "hex" "6162zz" []))
     = [encode sha_start].
Proof.
  assert (E : { t1 : trace &
                ExecuteCmd (Sim.chip Sim.ok_frame) (Cmd "SHA256")
                  (ShaMode "SHA_MODE_SHA256_START") (x00, x00) [] true []
                = (Returns ([x00], None), t1) }).
  { eexists. vm_compute. reflexivity. }
  destruct E as [t1 E].
  destruct (SHA256_decode_failure (Sim.chip Sim.ok_frame) "hex" "6162zz"
              [x61; x62] (DecodeError "encoding/hex: invalid byte")
              [] [x00] t1 eq_refl E) as [H [Hw _]].
  rewrite H. cbn [fst snd]. split; [reflexivity | exact Hw].
Defined.

Lemma hex_digits_decode (b : byte) :
  fromHexChar (byte_of_ascii (hex_digit (b2z b / 16))) = Some (b2z b / 16)
  /\ fromHexChar (byte_of_ascii (hex_digit (b2z b mod 16)))
     = Some (b2z b mod 16)
  /\ z2b (Z.lor (Z.shiftl (b2z b / 16) 4) (b2z b mod 16)) = b.
Proof. destruct b; repeat split; reflexivity. Qed.

(** Decoding the [%x] rendering of a byte slice gives the slice back. *)
Lemma hex_DecodeString_sprintf_x (data : list byte) :
  hex_DecodeString (sprintf_x data) = (data, None).
Proof.
  unfold hex_DecodeString.
  induction data as [|b data IH]; [reflexivity|].
  cbn [sprintf_x list_byte_of_string list_ascii_of_string map hex_Decode].
  fold (list_byte_of_string (sprintf_x data)).
  destruct (hex_digits_decode b) as [-> [-> Hb]].
  rewrite IH, Hb. reflexivity.
Qed.

(** The two message formats agree: hashing a byte sequence given as
    lower-case hexadecimal text is, on every bus, the same run as hashing
    it given as literal text. *)
Theorem SHA256_hex_same_as_str (bus : transport) (data : list byte)
    (t : trace) :
  SHA256 bus "hex" (sprintf_x data) t
  = SHA256 bus "str" (string_of_list_byte data) t.
Proof.
  assert (Hhex : sha_message "hex" (sprintf_x data) = (data, None)).
  { unfold sha_message.
    destruct data as [|b data]; [reflexivity|].
    cbn [String.eqb andb]. change (String.eqb "hex" "hex") with true.
    cbn [sprintf_x String.length Nat.ltb Nat.leb andb].
    apply (hex_DecodeString_sprintf_x (b :: data)). }
  assert (Hstr : sha_message "str" (string_of_list_byte data) = (data, None)).
  { unfold sha_message. cbn.
    rewrite list_byte_of_string_of_list_byte. reflexivity. }
  unfold SHA256. rewrite Hhex, Hstr. reflexivity.
Qed.

(** * Further properties of the self-test *)

(** An [ExecuteCmd] that returns without error returns at least one data
    byte, so the [data[0]] of [SelfTest] is always in range. *)
Lemma ExecuteCmd_success_nonempty (bus : transport) opcode param1 param2 data
    (t : trace) (d : list byte) (t' : trace) :
  ExecuteCmd bus opcode param1 param2 data true t = (Returns (d, None), t') ->
  d <> [].
Proof.
  intros H.
  destruct (ExecuteCmd_success_shape _ _ _ _ _ _ _ _ H)
    as [n [res [_ [_ [_ [Hp Hd]]]]]].
  pose proof (response_data_length res (proj1 Hp)) as Hl.
  intros ->. rewrite <- Hd in Hl. cbn in Hl. destruct Hp. lia.
Qed.

(** [SelfTest] on every bus and for every visiting order of [Test]: when
    the exchange fails, the error is returned with an empty report and the
    device is not put to sleep; when it succeeds, the report is the
    concatenation, in visiting order, of one [name:FAIL ] or [name:PASS ]
    entry per capability according to the bit of the capability in the
    first data byte, and the Sleep write is the last bus call. [SelfTest]
    panics only when the exchange itself does. *)
Theorem SelfTest_outcomes (bus : transport) (order : list (string * byte))
    (t : trace) :
  match ExecuteCmd bus (Cmd "SelfTest") x3b (x00, x00) [] true t with
  | (Returns (data, None), t1) =>
      SelfTest bus order t
      = (Returns (String.concat EmptyString
                    (map (verdict (nth 0 data x00)) order), None),
         t1 ++ [sleep_write])
  | (Returns (_, Some e), t1) =>
      SelfTest bus order t = (Returns (EmptyString, Some e), t1)
  | (Panics, t1) => SelfTest bus order t = (Panics, t1)
  end.
Proof.
  unfold SelfTest, bind.
  destruct (ExecuteCmd bus (Cmd "SelfTest") x3b (x00, x00) [] true t)
    as [[[data [e|]]|] t1] eqn:E; try reflexivity.
  pose proof (ExecuteCmd_success_nonempty _ _ _ _ _ _ _ _ E) as Hne.
  destruct data as [|d0 data]; [contradiction|].
  assert (Hrep : fold_left (report_entry d0) order EmptyString
                 = String.concat EmptyString (map (verdict d0) order)).
  { rewrite SelfTest_loop_report. reflexivity. }
  destruct order; cbn [nth]; rewrite Hrep; reflexivity.
Qed.

(** * Error detection of the checksum *)

Module CrcDetect.

Lemma top_bit (r : Z) :
  0 <= r < 65536 ->
  (2 * r) mod 2 ^ 16 = if Z.testbit r 15 then 2 * r - 65536 else 2 * r.
Proof.
  intros H. pose proof (CrcFacts.carry_bit r H) as Hc.
  rewrite Z.shiftr_div_pow2 in Hc by lia. change (2 ^ 15) with 32768 in Hc.
  change (2 ^ 16) with 65536.
  assert (Hq : 0 <= r / 32768 < 2).
  { split; [apply Z.div_pos; lia | apply Z.div_lt_upper_bound; lia]. }
  rewrite Z.mod_small in Hc by lia.
  pose proof (Z.div_mod r 32768 ltac:(lia)) as Hdm.
  pose proof (Z.mod_pos_bound r 32768 ltac:(lia)) as Hm.
  revert Hc. destruct (Z.testbit r 15); intros Hc.
  - symmetry. apply (Z.mod_unique (2 * r) 65536 1); lia.
  - apply Z.mod_small. lia.
Qed.

Lemma odd_lxor (a b : Z) : Z.odd (Z.lxor a b) = xorb (Z.odd a) (Z.odd b).
Proof. rewrite <- !Z.bit0_odd. apply Z.lxor_spec. Qed.

Lemma lxor_cancel_r (a b p : Z) : Z.lxor a p = Z.lxor b p -> a = b.
Proof.
  intros H. apply (f_equal (fun x => Z.lxor x p)) in H.
  rewrite !Z.lxor_assoc, Z.lxor_nilpotent, !Z.lxor_0_r in H. exact H.
Qed.

Lemma shifted_even (r : Z) :
  0 <= r < 65536 -> Z.odd ((2 * r) mod 2 ^ 16) = false.
Proof.
  intros H. rewrite (top_bit r H).
  destruct (Z.testbit r 15).
  - replace (2 * r - 65536) with (2 * (r - 32768)) by lia.
    apply Z.odd_even.
  - apply Z.odd_even.
Qed.

(** The low bit of the register after a step tells whether the polynomial
    was XOR-ed in. *)
Lemma step_bit_parity (b : byte) (r : Z) (i : nat) :
  0 <= r < 65536 ->
  Z.odd (CrcRef.step_bit b r i)
  = negb (Bool.eqb (Z.testbit (b2z b) (Z.of_nat i)) (Z.testbit r 15)).
Proof.
  intros H. unfold CrcRef.step_bit.
  destruct (Bool.eqb _ _); cbn [negb].
  - apply shifted_even, H.
  - rewrite odd_lxor, (shifted_even r H). reflexivity.
Qed.

(** For a fixed input bit a step is injective on 16-bit registers. *)
Lemma step_bit_inj (b : byte) (r1 r2 : Z) (i : nat) :
  0 <= r1 < 65536 -> 0 <= r2 < 65536 ->
  CrcRef.step_bit b r1 i = CrcRef.step_bit b r2 i -> r1 = r2.
Proof.
  intros H1 H2 E.
  pose proof (f_equal Z.odd E) as Ep.
  rewrite !step_bit_parity in Ep by assumption.
  assert (Hc : Z.testbit r1 15 = Z.testbit r2 15).
  { destruct (Z.testbit (b2z b) (Z.of_nat i)), (Z.testbit r1 15),
      (Z.testbit r2 15); cbn in Ep; congruence. }
  unfold CrcRef.step_bit in E. rewrite Hc in E.
  assert (Es : (2 * r1) mod 2 ^ 16 = (2 * r2) mod 2 ^ 16).
  { destruct (Bool.eqb _ _); [exact E | exact (lxor_cancel_r _ _ _ E)]. }
  rewrite (top_bit r1 H1), (top_bit r2 H2), Hc in Es.
  destruct (Z.testbit r2 15); lia.
Qed.

(** On the same register, input bits that differ give registers that
    differ. *)
Lemma step_bit_flip (b b' : byte) (r : Z) (i : nat) :
  0 <= r < 65536 ->
  Z.testbit (b2z b) (Z.of_nat i) <> Z.testbit (b2z b') (Z.of_nat i) ->
  CrcRef.step_bit b r i <> CrcRef.step_bit b' r i.
Proof.
  intros H Hd E. apply (f_equal Z.odd) in E.
  rewrite !step_bit_parity in E by assumption.
  destruct (Z.testbit (b2z b) (Z.of_nat i)), (Z.testbit (b2z b') (Z.of_nat i)),
    (Z.testbit r 15); cbn in E; congruence.
Qed.

Lemma step_bit_ext (b b' : byte) (r : Z) (i : nat) :
  Z.testbit (b2z b) (Z.of_nat i) = Z.testbit (b2z b') (Z.of_nat i) ->
  CrcRef.step_bit b r i = CrcRef.step_bit b' r i.
Proof. intros H. unfold CrcRef.step_bit. rewrite H. reflexivity. Qed.

Lemma fold_bits_range (b : byte) (l : list nat) (r : Z) :
  0 <= r < 65536 -> 0 <= fold_left (CrcRef.step_bit b) l r < 65536.
Proof.
  revert r; induction l as [|i l IH]; intros r H; [exact H|].
  apply IH, CrcFacts.step_bit_range.
Qed.

Lemma fold_bits_ext (b b' : byte) (l : list nat) (r : Z) :
  (forall i, In i l ->
     Z.testbit (b2z b) (Z.of_nat i) = Z.testbit (b2z b') (Z.of_nat i)) ->
  fold_left (CrcRef.step_bit b) l r = fold_left (CrcRef.step_bit b') l r.
Proof.
  revert r; induction l as [|i l IH]; intros r H; [reflexivity|].
  cbn [fold_left]. rewrite (step_bit_ext b b' r i) by (apply H; left; auto).
  apply IH. intros k Hk. apply H. right; exact Hk.
Qed.

(** Registers that differ stay different while both consume the same
    bits. *)
Lemma fold_bits_apart (b b' : byte) (l : list nat) (r1 r2 : Z) :
  0 <= r1 < 65536 -> 0 <= r2 < 65536 -> r1 <> r2 ->
  (forall i, In i l ->
     Z.testbit (b2z b) (Z.of_nat i) = Z.testbit (b2z b') (Z.of_nat i)) ->
  fold_left (CrcRef.step_bit b) l r1 <> fold_left (CrcRef.step_bit b') l r2.
Proof.
  revert r1 r2; induction l as [|i l IH]; intros r1 r2 H1 H2 Hne Hb.
  - exact Hne.
  - cbn [fold_left]. apply IH.
    + apply CrcFacts.step_bit_range.
    + apply CrcFacts.step_bit_range.
    + rewrite <- (step_bit_ext b b' r2 i) by (apply Hb; left; auto).
      intros E. apply Hne. exact (step_bit_inj b r1 r2 i H1 H2 E).
    + intros k Hk. apply Hb. right; exact Hk.
Qed.

Lemma step_byte_range (r : Z) (b : byte) :
  0 <= r < 65536 -> 0 <= CrcRef.step_byte r b < 65536.
Proof. apply fold_bits_range. Qed.

Lemma fold_bytes_range (data : list byte) (r : Z) :
  0 <= r < 65536 -> 0 <= fold_left CrcRef.step_byte data r < 65536.
Proof.
  revert r; induction data as [|b data IH]; intros r H; [exact H|].
  apply IH, step_byte_range, H.
Qed.

Lemma fold_bytes_apart (data : list byte) (r1 r2 : Z) :
  0 <= r1 < 65536 -> 0 <= r2 < 65536 -> r1 <> r2 ->
  fold_left CrcRef.step_byte data r1 <> fold_left CrcRef.step_byte data r2.
Proof.
  revert r1 r2; induction data as [|b data IH]; intros r1 r2 H1 H2 Hne.
  - exact Hne.
  - cbn [fold_left]. apply IH; try (apply step_byte_range; assumption).
    apply fold_bits_apart; auto.
Qed.

Lemma flip_bit_testbit (j i : nat) (b : byte) :
  (j < 8)%nat -> (i < 8)%nat ->
  Z.testbit (b2z (flip_bit j b)) (Z.of_nat i)
  = xorb (Z.testbit (b2z b) (Z.of_nat i)) (Nat.eqb i j).
Proof.
  intros Hj Hi. unfold flip_bit. rewrite b2z_z2b.
  change 256 with (2 ^ 8). rewrite Z.mod_pow2_bits_low by lia.
  rewrite Z.lxor_spec, Z.pow2_bits_eqb by lia.
  f_equal. destruct (Nat.eqb_spec i j) as [->|Hne].
  - apply Z.eqb_refl.
  - apply Z.eqb_neq. lia.
Qed.

(** Consuming a byte and consuming the same byte with one bit inverted
    lead one register to two different registers. *)
Lemma step_byte_flip (j : nat) (b : byte) (r : Z) :
  (j < 8)%nat -> 0 <= r < 65536 ->
  CrcRef.step_byte r (flip_bit j b) <> CrcRef.step_byte r b.
Proof.
  intros Hj Hr. unfold CrcRef.step_byte.
  replace (seq 0 8) with (seq 0 j ++ j :: seq (S j) (7 - j)).
  2:{ clear -Hj. do 8 (destruct j as [|j]; [reflexivity|]). lia. }
  rewrite !fold_left_app. cbn [fold_left].
  rewrite (fold_bits_ext (flip_bit j b) b (seq 0 j) r).
  2:{ intros i Hi. apply in_seq in Hi. rewrite flip_bit_testbit by lia.
      replace (Nat.eqb i j) with false
        by (symmetry; apply Nat.eqb_neq; lia).
      apply xorb_false_r. }
  set (r0 := fold_left (CrcRef.step_bit b) (seq 0 j) r).
  assert (Hr0 : 0 <= r0 < 65536) by (apply fold_bits_range, Hr).
  apply fold_bits_apart.
  - apply CrcFacts.step_bit_range.
  - apply CrcFacts.step_bit_range.
  - apply step_bit_flip; [exact Hr0|].
    rewrite flip_bit_testbit, Nat.eqb_refl by lia.
    destruct (Z.testbit (b2z b) (Z.of_nat j)); discriminate.
  - intros i Hi. apply in_seq in Hi. rewrite flip_bit_testbit by lia.
    replace (Nat.eqb i j) with false
      by (symmetry; apply Nat.eqb_neq; lia).
    apply xorb_false_r.
Qed.

Lemma register_flip (pre post : list byte) (b : byte) (j : nat) :
  (j < 8)%nat ->
  CrcRef.register (pre ++ flip_bit j b :: post)
  <> CrcRef.register (pre ++ b :: post).
Proof.
  intros Hj. unfold CrcRef.register. rewrite !fold_left_app. cbn [fold_left].
  set (r := fold_left CrcRef.step_byte pre 0).
  assert (Hr : 0 <= r < 65536) by (apply fold_bytes_range; lia).
  apply fold_bytes_apart; try (apply step_byte_range; exact Hr).
  apply step_byte_flip; assumption.
Qed.

(** The two bytes of the checksum determine the register. *)
Lemma crc16_register_inj (a b : list byte) :
  crc16 a = crc16 b -> Crc.register a = Crc.register b.
Proof.
  unfold crc16. intros H.
  destruct (CrcFacts.register_ref a) as [_ Ha].
  destruct (CrcFacts.register_ref b) as [_ Hb].
  injection H as Hlo Hhi.
  apply (f_equal b2z) in Hlo, Hhi. rewrite !b2z_z2b in Hlo, Hhi.
  change 0xff with (Z.ones 8) in Hlo.
  rewrite !Z.land_ones, !Z.mod_mod in Hlo by lia.
  rewrite !Z.shiftr_div_pow2 in Hhi by lia.
  change (2 ^ 8) with 256 in *.
  rewrite !(Z.mod_small (_ / 256)) in Hhi
    by (split; [apply Z.div_pos; lia | apply Z.div_lt_upper_bound; lia]).
  rewrite (Z.div_mod (Crc.register a) 256), (Z.div_mod (Crc.register b) 256)
    by lia.
  congruence.
Qed.

End CrcDetect.

(** Inverting any single bit of the input changes the checksum: for every
    message and every bit position of every byte of it, [crc16] of the
    message with that bit inverted differs from [crc16] of the message. *)
Theorem crc16_detects_bit_flip (pre post : list byte) (b : byte) (j : nat) :
  (j < 8)%nat ->
  crc16 (pre ++ flip_bit j b :: post) <> crc16 (pre ++ b :: post).
Proof.
  intros Hj E. apply CrcDetect.crc16_register_inj in E.
  destruct (CrcFacts.register_ref (pre ++ flip_bit j b :: post)) as [E1 _].
  destruct (CrcFacts.register_ref (pre ++ b :: post)) as [E2 _].
  rewrite E1, E2 in E.
  exact (CrcDetect.register_flip pre post b j Hj E).
Qed.

Lemma crc16_detects_bit_flip_witness :
  flip_bit 4 x01 = x11
  /\ crc16 ([x04] ++ x11 :: []) <> crc16 ([x04] ++ x01 :: []).
Proof.
  split; [reflexivity|].
  apply (crc16_detects_bit_flip [x04] [] x01 4). lia.
Defined.

Module CrcLinear.

Lemma xor_byte_testbit (a b : byte) (i : nat) :
  (i < 8)%nat ->
  Z.testbit (b2z (xor_byte a b)) (Z.of_nat i)
  = xorb (Z.testbit (b2z a) (Z.of_nat i)) (Z.testbit (b2z b) (Z.of_nat i)).
Proof.
  intros Hi. unfold xor_byte. rewrite b2z_z2b.
  change 256 with (2 ^ 8). rewrite Z.mod_pow2_bits_low by lia.
  apply Z.lxor_spec.
Qed.

Lemma xor_byte_zero_l (b : byte) : xor_byte x00 b = b.
Proof. unfold xor_byte. change (b2z x00) with 0. rewrite Z.lxor_0_l. apply z2b_b2z. Qed.

Lemma xor_byte_eq (a b : byte) : xor_byte a b = x00 -> a = b.
Proof.
  unfold xor_byte. intros H. apply (f_equal b2z) in H.
  rewrite b2z_z2b in H. change (b2z x00) with 0 in H.
  apply b2z_inj, Z.lxor_eq.
  assert (Hr : 0 <= Z.lxor (b2z a) (b2z b) < 256).
  { pose proof (b2z_range a). pose proof (b2z_range b).
    split; [apply Z.lxor_nonneg; lia|].
    destruct (Z.eq_dec (Z.lxor (b2z a) (b2z b)) 0) as [->|Hne]; [lia|].
    assert (0 <= Z.lxor (b2z a) (b2z b)) by (apply Z.lxor_nonneg; lia).
    change 256 with (2 ^ 8). apply Z.log2_lt_pow2; [lia|].
    eapply Z.le_lt_trans; [apply Z.log2_lxor; lia|].
    apply Z.max_lub_lt.
    - destruct (Z.eq_dec (b2z a) 0) as [->|]; [reflexivity|].
      apply Z.log2_lt_pow2; lia.
    - destruct (Z.eq_dec (b2z b) 0) as [->|]; [reflexivity|].
      apply Z.log2_lt_pow2; lia. }
  rewrite Z.mod_small in H by exact Hr. exact H.
Qed.

(** The left shift of the register is linear for exclusive or. *)
Lemma shift_lxor (r1 r2 : Z) :
  (2 * Z.lxor r1 r2) mod 2 ^ 16
  = Z.lxor ((2 * r1) mod 2 ^ 16) ((2 * r2) mod 2 ^ 16).
Proof.
  replace (2 * Z.lxor r1 r2) with (Z.shiftl (Z.lxor r1 r2) 1)
    by (rewrite Z.shiftl_mul_pow2; lia).
  replace (2 * r1) with (Z.shiftl r1 1) by (rewrite Z.shiftl_mul_pow2; lia).
  replace (2 * r2) with (Z.shiftl r2 1) by (rewrite Z.shiftl_mul_pow2; lia).
  rewrite Z.shiftl_lxor.
  apply Z.bits_inj'. intros n Hn.
  rewrite Z.lxor_spec.
  destruct (Z.lt_ge_cases n 16) as [Hl|Hg].
  - rewrite !Z.mod_pow2_bits_low by lia. apply Z.lxor_spec.
  - rewrite !Z.mod_pow2_bits_high by lia. reflexivity.
Qed.

Lemma step_bit_xor_form (b : byte) (r : Z) (i : nat) :
  CrcRef.step_bit b r i
  = Z.lxor ((2 * r) mod 2 ^ 16)
      (if xorb (Z.testbit (b2z b) (Z.of_nat i)) (Z.testbit r 15)
       then 0x8005 else 0).
Proof.
  unfold CrcRef.step_bit.
  destruct (Z.testbit (b2z b) (Z.of_nat i)), (Z.testbit r 15); cbn [Bool.eqb xorb];
    rewrite ?Z.lxor_0_r; reflexivity.
Qed.

Lemma lxor_swap (a b c d : Z) :
  Z.lxor (Z.lxor a b) (Z.lxor c d) = Z.lxor (Z.lxor a c) (Z.lxor b d).
Proof.
  rewrite !Z.lxor_assoc. f_equal.
  rewrite <- !Z.lxor_assoc. rewrite (Z.lxor_comm b c). reflexivity.
Qed.

(** One step of the checksum is linear for exclusive or, in the input bit
    and the register together. *)
Lemma step_bit_linear (b1 b2 : byte) (r1 r2 : Z) (i : nat) :
  (i < 8)%nat ->
  CrcRef.step_bit (xor_byte b1 b2) (Z.lxor r1 r2) i
  = Z.lxor (CrcRef.step_bit b1 r1 i) (CrcRef.step_bit b2 r2 i).
Proof.
  intros Hi. rewrite !step_bit_xor_form, shift_lxor, lxor_swap.
  f_equal. rewrite xor_byte_testbit by exact Hi. rewrite Z.lxor_spec.
  destruct (Z.testbit (b2z b1) (Z.of_nat i)), (Z.testbit (b2z b2) (Z.of_nat i)),
    (Z.testbit r1 15), (Z.testbit r2 15); reflexivity.
Qed.

Lemma fold_bits_linear (b1 b2 : byte) (l : list nat) (r1 r2 : Z) :
  Forall (fun i => (i < 8)%nat) l ->
  fold_left (CrcRef.step_bit (xor_byte b1 b2)) l (Z.lxor r1 r2)
  = Z.lxor (fold_left (CrcRef.step_bit b1) l r1)
      (fold_left (CrcRef.step_bit b2) l r2).
Proof.
  intros Hl; revert r1 r2; induction Hl as [|i l Hi Hl IH]; intros r1 r2.
  - reflexivity.
  - cbn [fold_left]. rewrite step_bit_linear by exact Hi. apply IH.
Qed.

Lemma step_byte_linear (b1 b2 : byte) (r1 r2 : Z) :
  CrcRef.step_byte (Z.lxor r1 r2) (xor_byte b1 b2)
  = Z.lxor (CrcRef.step_byte r1 b1) (CrcRef.step_byte r2 b2).
Proof.
  unfold CrcRef.step_byte. apply fold_bits_linear. repeat constructor.
Qed.

(** From the zero register only the zero byte leads back to zero. *)
Lemma step_byte_zero (c : byte) : CrcRef.step_byte 0 c = 0 -> c = x00.
Proof. destruct c; vm_compute; first [reflexivity | discriminate]. Qed.

(** On the same register two different bytes lead to different
    registers. *)
Lemma step_byte_apart (r : Z) (b b' : byte) :
  b <> b' -> CrcRef.step_byte r b <> CrcRef.step_byte r b'.
Proof.
  intros Hne E. apply Hne.
  apply xor_byte_eq, step_byte_zero.
  transitivity (CrcRef.step_byte (Z.lxor r r) (xor_byte b b')).
  { rewrite Z.lxor_nilpotent. reflexivity. }
  rewrite step_byte_linear, E. apply Z.lxor_nilpotent.
Qed.

Lemma crc16_apart (pre post : list byte) (b b' : byte) :
  b <> b' ->
  crc16 (pre ++ b :: post) <> crc16 (pre ++ b' :: post).
Proof.
  intros Hne E. apply CrcDetect.crc16_register_inj in E.
  destruct (CrcFacts.register_ref (pre ++ b :: post)) as [E1 _].
  destruct (CrcFacts.register_ref (pre ++ b' :: post)) as [E2 _].
  rewrite E1, E2 in E. revert E.
  unfold CrcRef.register. rewrite !fold_left_app. cbn [fold_left].
  set (r := fold_left CrcRef.step_byte pre 0).
  assert (Hr : 0 <= r < 65536) by (apply CrcDetect.fold_bytes_range; lia).
  apply CrcDetect.fold_bytes_apart;
    try (apply CrcDetect.step_byte_range; exact Hr).
  apply step_byte_apart, Hne.
Qed.


End CrcLinear.

(** Any corruption confined to one byte changes the checksum: two messages
    that differ in exactly one byte position never have the same
    [crc16]. *)
Theorem crc16_detects_byte_change (pre post : list byte) (b b' : byte) :
  b <> b' ->
  crc16 (pre ++ b :: post) <> crc16 (pre ++ b' :: post).
Proof. apply CrcLinear.crc16_apart. Qed.

Lemma crc16_detects_byte_change_witness :
  crc16 ([x04] ++ x11 :: [x33]) <> crc16 ([x04] ++ xee :: [x33]).
Proof.
  apply (crc16_detects_byte_change [x04] [x33] x11 xee). discriminate.
Defined.

(** A valid response in which one byte before the checksum is then
    corrupted is always rejected with [ChecksumMismatch]. *)
Theorem verifyResponse_detects_corrupted_byte
    (pre post : list byte) (b b' : byte) :
  b <> b' ->
  (2 <= len (pre ++ b :: post))%nat ->
  verifyResponse ((pre ++ b' :: post) ++ crc16 (pre ++ b :: post))
  = (tl (pre ++ b' :: post), Some ChecksumMismatch).
Proof.
  intros Hne Hlen.
  set (body := pre ++ b' :: post).
  assert (Hb : len body = len (pre ++ b :: post)).
  { unfold body. rewrite !length_app. reflexivity. }
  assert (Hl : (len (body ++ crc16 (pre ++ b :: post)) - 2 = len body)%nat).
  { rewrite length_app, crc16_length. lia. }
  rewrite verifyResponse_bad_checksum.
  - unfold response_data. rewrite Hl, firstn_app, Nat.sub_diag, firstn_all.
    cbn [firstn]. rewrite app_nil_r.
    destruct body; reflexivity.
  - rewrite length_app, crc16_length. lia.
  - rewrite Hl, firstn_app, Nat.sub_diag, firstn_all, skipn_app, Nat.sub_diag,
      skipn_all.
    cbn [firstn skipn app]. rewrite app_nil_r.
    apply not_eq_sym. apply CrcLinear.crc16_apart.
    exact Hne.
Qed.

Lemma verifyResponse_detects_corrupted_byte_witness :
  verifyResponse [x04; x01; x03; x40] = ([x01], Some ChecksumMismatch).
Proof.
  apply (verifyResponse_detects_corrupted_byte [x04] [] x00 x01).
  - discriminate.
  - simpl; lia.
Defined.

(** * Properties of the identity read *)

Lemma slice_room_in_data (s room : list byte) (lo hi : nat) (t : trace) :
  (lo <= hi)%nat -> (hi <= len s)%nat ->
  slice_room s room lo hi t = (Returns (firstn (hi - lo) (skipn lo s)), t).
Proof.
  intros H1 H2. unfold slice_room.
  replace ((lo <=? hi)%nat && (hi <=? len s + len room)%nat) with true.
  - unfold ret. do 2 f_equal.
    rewrite skipn_app, firstn_app, length_skipn.
    replace (hi - lo - (len s - lo))%nat with 0%nat by lia.
    cbn [firstn]. apply app_nil_r.
  - symmetry. apply andb_true_iff. split; apply Nat.leb_le; lia.
Qed.

Lemma slice_room_out (s room : list byte) (lo hi : nat) (t : trace) :
  (len s + len room < hi)%nat ->
  slice_room s room lo hi t = (Panics, t).
Proof.
  intros H. unfold slice_room.
  replace (hi <=? len s + len room)%nat with false
    by (symmetry; apply Nat.leb_gt; exact H).
  rewrite andb_false_r. reflexivity.
Qed.

(** [Info] on a payload of at least 13 bytes: the serial number is bytes
    0-3 followed by bytes 8-12 and the revision is bytes 4-7, both
    rendered in lower-case hexadecimal; nothing else of the payload, and
    nothing of the memory behind it, enters the result. The Sleep write is
    the last bus call. *)
Theorem Info_report (bus : transport) (room : list byte) (t : trace)
    (data : list byte) (t1 : trace) :
  ExecuteCmd bus (Cmd "Read") x80 (x00, x00) [] true t
  = (Returns (data, None), t1) ->
  (13 <= len data)%nat ->
  Info bus room t
  = (Returns
       (("serial:0x"
         ++ sprintf_x (firstn 4 data ++ firstn 5 (skipn 8 data))
         ++ " revision:0x" ++ sprintf_x (firstn 4 (skipn 4 data)))%string,
        None),
     t1 ++ [sleep_write]).
Proof.
  intros Hrun Hlen. unfold Info, bind. rewrite Hrun.
  rewrite !slice_room_in_data by lia.
  reflexivity.
Qed.

Lemma Info_report_witness :
  fst (Info (Sim.chip SimInfo.config_frame) [] [])
  = Returns
      ("serial:0x0123456789abcdef01 revision:0x00006002"%string, None).
Proof.
  assert (E : { t1 : trace &
                ExecuteCmd (Sim.chip SimInfo.config_frame) (Cmd "Read") x80
                  (x00, x00) [] true []
                = (Returns (SimInfo.config_zone, None), t1) }).
  { eexists. vm_compute. reflexivity. }
  destruct E as [t1 E].
  rewrite (Info_report (Sim.chip SimInfo.config_frame) [] []
             SimInfo.config_zone t1 E); [reflexivity|].
  vm_compute. lia.
Defined.

(** [Info] does not check the length of the payload. When the payload and
    the memory behind it together are shorter than 13 bytes, the slice
    expressions go out of range: [Info] panics, and the device, idled by
    the session, is not put to sleep. *)
Theorem Info_short_payload_panics (bus : transport) (room : list byte)
    (t : trace) (data : list byte) (t1 : trace) :
  ExecuteCmd bus (Cmd "Read") x80 (x00, x00) [] true t
  = (Returns (data, None), t1) ->
  (len data + len room < 13)%nat ->
  Info bus room t = (Panics, t1).
Proof.
  intros Hrun Hlen. unfold Info, bind. rewrite Hrun.
  destruct (slice_room data room 0 4 t1) as [[d04|] t2] eqn:E1.
  - assert (t2 = t1).
    { unfold slice_room in E1.
      destruct (_ && _); inversion E1; reflexivity. }
    subst t2. rewrite slice_room_out by exact Hlen. reflexivity.
  - unfold slice_room in E1.
    destruct (_ && _); inversion E1; reflexivity.
Qed.

Lemma Info_short_payload_panics_witness :
  fst (Info (Sim.chip Sim.ok_frame) [x03; x40] []) = Panics.
Proof.
  assert (E : { t1 : trace &
                ExecuteCmd (Sim.chip Sim.ok_frame) (Cmd "Read") x80
                  (x00, x00) [] true []
                = (Returns ([x00], None), t1) }).
  { eexists. vm_compute. reflexivity. }
  destruct E as [t1 E].
  rewrite (Info_short_payload_panics (Sim.chip Sim.ok_frame) [x03; x40] []
             [x00] t1 E); [reflexivity|].
  simpl; lia.
Defined.
